(** * pytorch_geometric: multi-aggregation, global pooling and link-level
      neighbour loading

    A shallow embedding of
    - [torch_geometric/nn/aggr/multi.py]  (module [Multi]),
    - [torch_geometric/nn/pool/glob.py]   (module [Glob]),
    - the batch assembly of [LinkNeighborLoader] as the specification
      describes it and as [test/loader/test_link_neighbor_loader.py]
      exercises it (module [Loader]).

    Python exceptions are values of [exn]; a call that may raise returns a
    [result]. *)

From Stdlib Require Import ZArith String List Lia QArith Qround.
From stdpp Require Import base option list gmap strings pretty.

Local Open Scope string_scope.
Local Open Scope list_scope.
Set Warnings "-register-all".

(** ** Exceptions and results *)

Inductive exn : Type :=
| ValueError (msg : string)
| TypeError (msg : string)
| IndexError (msg : string)
| RuntimeError (msg : string)
| AttributeError (msg : string).

Inductive result (A : Type) : Type :=
| Ok (a : A)
| Raise (e : exn).
Arguments Ok {A} a.
Arguments Raise {A} e.

#[global] Instance result_ret : MRet result := @Ok.
#[global] Instance result_bind : MBind result := fun A B f m =>
  match m with
  | Ok a => f a
  | Raise e => Raise e
  end.
#[global] Instance result_fmap : FMap result := fun A B f m =>
  match m with
  | Ok a => Ok (f a)
  | Raise e => Raise e
  end.

Definition is_Ok {A} (r : result A) : Prop := exists a, r = Ok a.

Definition is_ValueError {A} (r : result A) : Prop :=
  exists msg, r = Raise (ValueError msg).

(** [for x in l: ys.append(f x)] for a body that may raise. *)
Fixpoint result_map {A B} (f : A -> result B) (l : list A) : result (list B) :=
  match l with
  | [] => Ok []
  | a :: l' => b ← f a; bs ← result_map f l'; Ok (b :: bs)
  end.

(** ** Python values that reach the code as keyword arguments *)

Inductive pyval : Type :=
| PyNone
| PyBool (b : bool)
| PyInt (z : Z)
| PyStr (s : string)
| PyTuple (items : list pyval).

(** Truth value testing, as [and], [or] and [if] apply it. *)
Definition truthy (v : pyval) : bool :=
  match v with
  | PyNone => false
  | PyBool b => b
  | PyInt z => negb (z =? 0)%Z
  | PyStr s => negb (String.eqb s "")
  | PyTuple items => match items with [] => false | _ => true end
  end.

(** [a and b] evaluates to [a] when [a] is false, and to [b] otherwise. *)
Definition py_and (a b : pyval) : pyval := if truthy a then b else a.

(** [a or b] evaluates to [a] when [a] is true, and to [b] otherwise. *)
Definition py_or (a b : pyval) : pyval := if truthy a then a else b.

(** [v is None] *)
Definition is_None (v : pyval) : bool :=
  match v with PyNone => true | _ => false end.

(** [isinstance(v, int)]: [bool] is a subclass of [int]. *)
Definition isinstance_int (v : pyval) : bool :=
  match v with PyInt _ | PyBool _ => true | _ => false end.

(** Iteration over a value: tuples yield their items, strings their
    characters; the other values are not iterable. *)
Definition py_iter (v : pyval) : result (list pyval) :=
  match v with
  | PyTuple items => Ok items
  | PyStr s => Ok ((fun c => PyStr (String c EmptyString)) <$> list_ascii_of_string s)
  | PyNone => Raise (TypeError "'NoneType' object is not iterable")
  | PyBool _ => Raise (TypeError "'bool' object is not iterable")
  | PyInt _ => Raise (TypeError "'int' object is not iterable")
  end.

(** [sum(v)]: the items are added to [0] from left to right. *)
Definition py_add_int (acc : Z) (v : pyval) : result Z :=
  match v with
  | PyInt z => Ok (acc + z)%Z
  | PyBool b => Ok (acc + Z.b2z b)%Z
  | _ => Raise (TypeError "unsupported operand type(s) for +")
  end.

Fixpoint py_sum_from (acc : Z) (items : list pyval) : result Z :=
  match items with
  | [] => Ok acc
  | v :: items' => acc' ← py_add_int acc v; py_sum_from acc' items'
  end.

Definition py_sum (v : pyval) : result pyval :=
  items ← py_iter v; s ← py_sum_from 0%Z items; Ok (PyInt s).

(** A [dict] with string keys, as [**kwargs] and [mode_kwargs] are. *)
Abbreviation kwargs := (gmap string pyval).

(** [d.pop(key, default)]: the value and the dictionary without the key. *)
Definition dict_pop (d : kwargs) (key : string) (dflt : pyval) : pyval * kwargs :=
  (default dflt (d !! key), delete key d).

(** ** torch_geometric/nn/aggr/multi.py *)

Module Multi.

(** What [multi.py] imports: tensors and their operations from [torch],
    the layers [Linear] and [MultiheadAttention] from [torch.nn], the class
    [Aggregation] and [aggregation_resolver] from the package itself.  Each
    call may raise. *)
Class Torch : Type := {
  Tensor : Type;
  Aggregation : Type;
  Linear_module : Type;
  MultiheadAttention_module : Type;
  (** [aggr(x, index, ptr, dim_size, dim)] *)
  Aggregation_call :
    Aggregation -> Tensor -> option Tensor -> option Tensor -> option Z -> Z ->
    result Tensor;
  (** [Linear(in_features, out_features, **kwargs)] and [lin(x)] *)
  Linear : pyval -> pyval -> kwargs -> result Linear_module;
  Linear_call : Linear_module -> Tensor -> result Tensor;
  (** [MultiheadAttention(embed_dim, num_heads, **kwargs)] and
      [attn(query, key, value)], which returns a pair. *)
  MultiheadAttention : pyval -> pyval -> kwargs -> result MultiheadAttention_module;
  MultiheadAttention_call :
    MultiheadAttention_module -> Tensor -> Tensor -> Tensor -> result (Tensor * Tensor);
  (** [torch.cat(inputs, dim)], [torch.stack(inputs, dim)], [torch.mean(x, dim)] *)
  torch_cat : list Tensor -> Z -> result Tensor;
  torch_stack : list Tensor -> Z -> result Tensor;
  torch_mean : Tensor -> Z -> result Tensor;
  (** [getattr(torch, name)(x, dim)] for the dense combine modes: a tensor,
      or for [max] and [min] a pair of values and indices. *)
  torch_dense : string -> Tensor -> Z -> result (Tensor + Tensor * Tensor);
}.

Section multi.
Context `{Torch}.

(** An entry of [aggrs]: [Union[Aggregation, str]]. *)
Inductive aggr_query : Type :=
| ByName (name : string)
| ByModule (a : Aggregation).

(** The argument [aggrs], which the code tests with
    [isinstance(aggrs, (list, tuple))]. *)
Inductive aggrs_arg : Type :=
| AggrsList (items : list aggr_query)
| AggrsTuple (items : list aggr_query)
| AggrsOther (type_repr : string).

(** [aggregation_resolver(aggr, **aggr_kwargs)] is imported from
    [torch_geometric.nn.resolver]. *)
Context (aggregation_resolver : aggr_query -> kwargs -> result Aggregation).

Record MultiAggregation : Type := {
  aggrs : list Aggregation;
  mode : option string;
  (** [None] stands for an attribute that was never set, so that
      [hasattr(self, 'lin')] is [is_Some (lin self)]. *)
  lin : option Linear_module;
  lin_heads : option (list Linear_module);
  multihead_attn : option MultiheadAttention_module;
  (** [getattr(torch, mode)], kept by its name. *)
  dense_combine : option string;
}.

(** The messages of the [ValueError]s that [__init__] and [combine] raise
    ([self.__class__.__name__] is ['MultiAggregation']). *)
Definition msg_not_a_list (type_repr : string) : string :=
  "'aggrs' of 'MultiAggregation' should be a list or tuple (got '"
  +:+ type_repr +:+ "').".
Definition msg_empty : string :=
  "'aggrs' of 'MultiAggregation' should not be empty.".
Definition msg_kwargs_length (got expected : nat) : string :=
  "'aggrs_kwargs' with invalid length passed to 'MultiAggregation' (got '"
  +:+ pretty got +:+ "', expected '" +:+ pretty expected
  +:+ "'). Ensure that both 'aggrs' and 'aggrs_kwargs' are consistent.".
Definition msg_multiple : string :=
  "Multiple aggregations are required for 'proj' or 'attn' combine mode.".
Definition msg_channels (mode : string) : string :=
  "Combine mode '" +:+ mode
  +:+ "' must have `in_channels` and `out_channels` specified.".
Definition msg_not_supported (mode : option string) : string :=
  "Combine mode '" +:+ default "None" mode +:+ "' is not supported.".

Definition mode_is (mode : option string) (name : string) : bool :=
  bool_decide (mode = Some name).

Definition dense_combine_modes : list string :=
  ["sum"; "mean"; "max"; "min"; "logsumexp"; "std"; "var"].

(** Lines 68-98: the modules of the combine modes ['proj'] and ['attn'],
    as the triple [(lin, lin_heads, multihead_attn)]. *)
Definition init_mode (n_aggrs : nat) (mode : option string) (mode_kwargs : kwargs)
  : result (option Linear_module * option (list Linear_module)
            * option MultiheadAttention_module) :=
  if mode_is mode "proj" || mode_is mode "attn" then
    if bool_decide (n_aggrs = 1) then Raise (ValueError msg_multiple) else
    let '(in_channels, mode_kwargs) := dict_pop mode_kwargs "in_channels" PyNone in
    let '(out_channels, mode_kwargs) := dict_pop mode_kwargs "out_channels" PyNone in
    if is_None (py_and in_channels out_channels) then
      Raise (ValueError (msg_channels (default "" mode)))
    else
    let in_channels :=
      if isinstance_int in_channels
      then PyTuple (replicate n_aggrs in_channels) else in_channels in
    lin ← (if mode_is mode "proj" then
             total ← py_sum in_channels;
             Some <$> Linear total out_channels mode_kwargs
           else Ok None);
    if mode_is mode "attn" then
      channels ← py_iter in_channels;
      heads ← result_map (fun c => Linear c out_channels ∅) channels;
      let '(num_heads, mode_kwargs) := dict_pop mode_kwargs "num_heads" (PyInt 1) in
      attn ← MultiheadAttention out_channels num_heads mode_kwargs;
      Ok (lin, Some heads, Some attn)
    else Ok (lin, None, None)
  else Ok (None, None, None).

Definition __init__ (aggrs : aggrs_arg) (aggrs_kwargs : option (list kwargs))
    (mode : option string) (mode_kwargs : option kwargs) : result MultiAggregation :=
  match aggrs with
  | AggrsOther type_repr => Raise (ValueError (msg_not_a_list type_repr))
  | AggrsList items | AggrsTuple items =>
    if bool_decide (length items = 0) then Raise (ValueError msg_empty) else
    aggrs_kwargs ←
      match aggrs_kwargs with
      | None => Ok (replicate (length items) (∅ : kwargs))
      | Some ks =>
        if bool_decide (length items ≠ length ks)
        then Raise (ValueError (msg_kwargs_length (length ks) (length items)))
        else Ok ks
      end;
    resolved ←
      result_map (fun '(aggr, aggr_kwargs) => aggregation_resolver aggr aggr_kwargs)
                 (zip items aggrs_kwargs);
    let mode_kwargs := default ∅ mode_kwargs in
    '(lin, lin_heads, multihead_attn) ← init_mode (length items) mode mode_kwargs;
    Ok {| aggrs := resolved;
          mode := mode;
          lin := lin;
          lin_heads := lin_heads;
          multihead_attn := multihead_attn;
          dense_combine :=
            match mode with
            | Some m => if bool_decide (m ∈ dense_combine_modes) then Some m else None
            | None => None
            end |}
  end.

(** *** [forward] and [combine]

    The two methods run in a monad that records the calls made: of the
    aggregators, in order, and of [self.combine]. *)
Inductive event : Type :=
| Call_aggr (a : Aggregation)
| Call_combine (inputs : list Tensor).

Definition traced (A : Type) : Type := list event -> result A * list event.

Definition traced_ret {A} (a : A) : traced A := fun tr => (Ok a, tr).
Definition traced_bind {A B} (f : A -> traced B) (m : traced A) : traced B :=
  fun tr =>
    match m tr with
    | (Ok a, tr') => f a tr'
    | (Raise e, tr') => (Raise e, tr')
    end.
Definition emit (e : event) : traced unit := fun tr => (Ok tt, tr ++ [e]).
Definition lift {A} (r : result A) : traced A := fun tr => (r, tr).
Definition run {A} (m : traced A) : result A * list event := m [].

#[local] Instance traced_mret : MRet traced := @traced_ret.
#[local] Instance traced_mbind : MBind traced := @traced_bind.

(** [outs[0]] *)
Definition first_output (outs : list Tensor) : result Tensor :=
  match outs with
  | out :: _ => Ok out
  | [] => Raise (IndexError "list index out of range")
  end.

Definition combine (self : MultiAggregation) (inputs : list Tensor) : traced Tensor :=
  emit (Call_combine inputs);;
  lift (
    if mode_is (mode self) "cat" || mode_is (mode self) "proj" then
      out ← torch_cat inputs (-1);
      match lin self with
      | Some l => Linear_call l out
      | None => Ok out
      end
    else
    match multihead_attn self, dense_combine self with
    | Some attn, _ =>
      match lin_heads self with
      | None => Raise (AttributeError "'MultiAggregation' object has no attribute 'lin_heads'")
      | Some heads =>
        xs ← result_map (fun '(x, head) => Linear_call head x) (zip inputs heads);
        x ← torch_stack xs 0;
        '(attn_out, _) ← MultiheadAttention_call attn x x x;
        torch_mean attn_out 0
      end
    | None, Some name =>
      stacked ← torch_stack inputs 0;
      out ← torch_dense name stacked 0;
      Ok (match out with inl t => t | inr (values, _) => values end)
    | None, None => Raise (ValueError (msg_not_supported (mode self)))
    end).

(** The loop [for aggr in self.aggrs: outs.append(aggr(...))]. *)
Fixpoint call_aggrs (l : list Aggregation) (x : Tensor) (index ptr : option Tensor)
    (dim_size : option Z) (dim : Z) : traced (list Tensor) :=
  match l with
  | [] => mret []
  | aggr :: l' =>
    emit (Call_aggr aggr);;
    out ← lift (Aggregation_call aggr x index ptr dim_size dim);
    outs ← call_aggrs l' x index ptr dim_size dim;
    mret (out :: outs)
  end.

Definition forward (self : MultiAggregation) (x : Tensor) (index ptr : option Tensor)
    (dim_size : option Z) (dim : Z) : traced Tensor :=
  outs ← call_aggrs (aggrs self) x index ptr dim_size dim;
  if bool_decide (1 < length outs) then combine self outs else lift (first_output outs).

(** The conditions under which [__init__] raises a [ValueError] of its
    own: the combine mode needs [in_channels] and [out_channels], which are
    read from [mode_kwargs] with [None] for a missing key. *)
Definition needs_channels (mode : option string) : Prop :=
  mode = Some "proj" \/ mode = Some "attn".
Definition channels_in (mode_kwargs : kwargs) : pyval :=
  default PyNone (mode_kwargs !! "in_channels").
Definition channels_out (mode_kwargs : kwargs) : pyval :=
  default PyNone (mode_kwargs !! "out_channels").

(** [aggrs] as a sequence; a value that is neither a list nor a tuple has
    no entries. *)
Definition entries (aggrs : aggrs_arg) : list aggr_query :=
  match aggrs with
  | AggrsList items | AggrsTuple items => items
  | AggrsOther _ => []
  end.

(** The arguments for which [__init__] raises a [ValueError] of its own. *)
Definition init_rejects (aggrs : aggrs_arg) (aggrs_kwargs : option (list kwargs))
    (mode : option string) (mode_kwargs : option kwargs) : Prop :=
  match aggrs with
  | AggrsOther _ => True
  | AggrsList items | AggrsTuple items =>
    items = []
    \/ (exists ks, aggrs_kwargs = Some ks /\ length items <> length ks)
    \/ (needs_channels mode
        /\ (length items = 1
            \/ channels_in (default ∅ mode_kwargs) = PyNone
            \/ (truthy (channels_in (default ∅ mode_kwargs)) = true
                /\ channels_out (default ∅ mode_kwargs) = PyNone)))
  end.

(** The same with the condition on the channels as the message of the
    error words it: [in_channels] or [out_channels] is not specified. *)
Definition init_rejects_as_worded (aggrs : aggrs_arg)
    (aggrs_kwargs : option (list kwargs)) (mode : option string)
    (mode_kwargs : option kwargs) : Prop :=
  match aggrs with
  | AggrsOther _ => True
  | AggrsList items | AggrsTuple items =>
    items = []
    \/ (exists ks, aggrs_kwargs = Some ks /\ length items <> length ks)
    \/ (needs_channels mode
        /\ (length items = 1
            \/ channels_in (default ∅ mode_kwargs) = PyNone
            \/ channels_out (default ∅ mode_kwargs) = PyNone))
  end.

(** The combine modes that [combine] knows. *)
Definition combine_modes : list string :=
  ["cat"; "proj"; "attn"] ++ dense_combine_modes.

(** The events of the loop over the aggregators. *)
Definition is_aggr_call (e : event) : Prop :=
  match e with Call_aggr _ => True | Call_combine _ => False end.

(** [combine] was called during a run. *)
Definition combine_called (tr : list event) : Prop :=
  exists inputs, Call_combine inputs ∈ tr.

(** [in_channels] as [__init__] uses it after line 80: an integer stands
    for one entry per aggregator. *)
Definition channels_per_aggr (n_aggrs : nat) (in_channels : pyval) : pyval :=
  if isinstance_int in_channels
  then PyTuple (replicate n_aggrs in_channels) else in_channels.

(** *** [reset_parameters]

    The calls of [reset_parameters] and [_reset_parameters] that the method
    makes on the modules of the instance, in order. *)
Inductive reset_event : Type :=
| Reset_aggr (a : Aggregation)
| Reset_lin (l : Linear_module)
| Reset_attn (m : MultiheadAttention_module).

Definition reset_parameters (self : MultiAggregation) : list reset_event :=
  (Reset_aggr <$> aggrs self)
  ++ match lin self with Some l => [Reset_lin l] | None => [] end
  ++ match lin_heads self with Some heads => Reset_lin <$> heads | None => [] end
  ++ match multihead_attn self with Some attn => [Reset_attn attn] | None => [] end.

(** *** [__init__] and the dictionary of its caller

    [mode_kwargs or {}] is the caller's dictionary itself unless that is
    empty, and [pop] removes keys from it: lines 68-98 once more, with the
    dictionary as it is left behind, also when an exception is raised. *)
Definition init_mode_shared (n_aggrs : nat) (mode : option string) (mode_kwargs : kwargs)
  : result (option Linear_module * option (list Linear_module)
            * option MultiheadAttention_module) * kwargs :=
  if mode_is mode "proj" || mode_is mode "attn" then
    if bool_decide (n_aggrs = 1) then (Raise (ValueError msg_multiple), mode_kwargs) else
    let '(in_channels, mode_kwargs) := dict_pop mode_kwargs "in_channels" PyNone in
    let '(out_channels, mode_kwargs) := dict_pop mode_kwargs "out_channels" PyNone in
    if is_None (py_and in_channels out_channels) then
      (Raise (ValueError (msg_channels (default "" mode))), mode_kwargs)
    else
    let in_channels :=
      if isinstance_int in_channels
      then PyTuple (replicate n_aggrs in_channels) else in_channels in
    match (if mode_is mode "proj" then
             total ← py_sum in_channels;
             Some <$> Linear total out_channels mode_kwargs
           else Ok None) with
    | Raise e => (Raise e, mode_kwargs)
    | Ok lin =>
      if mode_is mode "attn" then
        match (channels ← py_iter in_channels;
               result_map (fun c => Linear c out_channels ∅) channels) with
        | Raise e => (Raise e, mode_kwargs)
        | Ok heads =>
          let '(num_heads, mode_kwargs) := dict_pop mode_kwargs "num_heads" (PyInt 1) in
          (attn ← MultiheadAttention out_channels num_heads mode_kwargs;
           Ok (lin, Some heads, Some attn), mode_kwargs)
        end
      else (Ok (lin, None, None), mode_kwargs)
    end
  else (Ok (None, None, None), mode_kwargs).

(** [MultiAggregation(aggrs, aggrs_kwargs, mode, d)] for a dictionary [d] of
    the caller: the outcome, and [d] after the call. *)
Definition init_shared (aggrs : aggrs_arg) (aggrs_kwargs : option (list kwargs))
    (mode : option string) (d : kwargs) : result MultiAggregation * kwargs :=
  match aggrs with
  | AggrsOther type_repr => (Raise (ValueError (msg_not_a_list type_repr)), d)
  | AggrsList items | AggrsTuple items =>
    if bool_decide (length items = 0) then (Raise (ValueError msg_empty), d) else
    match (match aggrs_kwargs with
           | None => Ok (replicate (length items) (∅ : kwargs))
           | Some ks =>
             if bool_decide (length items ≠ length ks)
             then Raise (ValueError (msg_kwargs_length (length ks) (length items)))
             else Ok ks
           end
           ≫= fun aggrs_kwargs =>
             result_map (fun '(aggr, aggr_kwargs) => aggregation_resolver aggr aggr_kwargs)
                        (zip items aggrs_kwargs)) with
    | Raise e => (Raise e, d)
    | Ok resolved =>
      let '(modules, d) := init_mode_shared (length items) mode d in
      ('(lin, lin_heads, multihead_attn) ← modules;
       Ok {| aggrs := resolved;
             mode := mode;
             lin := lin;
             lin_heads := lin_heads;
             multihead_attn := multihead_attn;
             dense_combine :=
               match mode with
               | Some m => if bool_decide (m ∈ dense_combine_modes) then Some m else None
               | None => None
               end |}, d)
    end
  end.

End multi.
End Multi.

(** ** torch_geometric/nn/pool/glob.py *)

Module Glob.

(** A tensor: its sizes, and its entries in row-major order.  A tensor of
    the library always holds [product shape] entries ([well_formed]). *)
Record Tensor (elt : Type) : Type := mkTensor {
  shape : list nat;
  data : list elt;
}.
Arguments mkTensor {elt} shape data.
Arguments shape {elt} t.
Arguments data {elt} t.

Definition product (sizes : list nat) : nat := foldr Nat.mul 1 sizes.

Definition well_formed {elt} (t : Tensor elt) : Prop :=
  length (data t) = product (shape t).

(** [x.dim()] *)
Definition dim {elt} (t : Tensor elt) : nat := length (shape t).

(** The entries of the feature tensors: floating-point numbers, taken
    abstractly with the operations the reductions use. *)
Class Scalar (elt : Type) : Type := {
  zero : elt;
  add : elt -> elt -> elt;
  (** [div_count s n] is [s / n], the mean of [n] entries that add up to [s]. *)
  div_count : elt -> nat -> elt;
  (** [leb a b] is [a <= b]. *)
  leb : elt -> elt -> bool;
}.

(** [scatter(src, index, dim, dim_size=..., reduce=...)] is imported from
    the extension [torch_scatter]. *)
Class Scatter (elt : Type) : Type :=
  scatter : Tensor elt -> Tensor Z -> Z -> option Z -> string -> result (Tensor elt).

(** Modelled from the spec: [Tensor.sum], [Tensor.mean], [Tensor.max] and
    [Tensor.item] belong to [torch], which is not among the sources; the
    specification calls the pooling functions "straightforward tensor
    reductions".  The definitions below follow torch's documented
    behaviour: a dimension [dim] of a tensor with [n] dimensions must lie in
    [-n, n-1] (a 0-dimensional tensor counts as 1-dimensional) and negative
    values count from the end; a reduction over one dimension removes it, or
    keeps it with size 1 under [keepdim=True]; [max] over a dimension of
    size 0 raises, and returns values and indices otherwise. *)
Definition wrap_dim (d : Z) (ndim : nat) : result nat :=
  let n := Z.of_nat (Nat.max ndim 1) in
  if bool_decide (- n ≤ d ≤ n - 1)%Z
  then Ok (Z.to_nat (if bool_decide (d < 0)%Z then d + n else d)%Z)
  else Raise (IndexError "Dimension out of range").

Section reductions.
Context {elt : Type} `{Scalar elt}.

(** [x.size(d)] for a dimension that was wrapped. *)
Definition size_at (x : Tensor elt) (d : nat) : nat := default 1 (shape x !! d).

(** The entries of [x] along dimension [d], at position [o] of the
    dimensions before it and [i] of those after it ([inner] entries). *)
Definition lane (x : Tensor elt) (d inner o i : nat) : list elt :=
  omap (fun j => data x !! ((o * size_at x d + j) * inner + i))
       (seq 0 (size_at x d)).

(** Reduction of every lane along dimension [d] by [f]. *)
Definition reduce_dim {out : Type} (f : list elt -> out) (x : Tensor elt) (d : nat)
    (keepdim : bool) : Tensor out :=
  let pre := take d (shape x) in
  let post := drop (S d) (shape x) in
  let inner := product post in
  {| shape := pre ++ (if keepdim then [1] else []) ++ post;
     data := (fun k => f (lane x d inner (k / inner) (k mod inner)))
             <$> seq 0 (product pre * inner) |}.

Definition sum_list (l : list elt) : elt := foldl add zero l.
Definition mean_list (l : list elt) : elt := div_count (sum_list l) (length l).

(** The largest entry of a lane and the position of its first occurrence. *)
Fixpoint max_from (best : elt) (best_at next : nat) (l : list elt) : elt * nat :=
  match l with
  | [] => (best, best_at)
  | v :: l' =>
    if leb v best then max_from best best_at (S next) l'
    else max_from v next (S next) l'
  end.
Definition max_list (l : list elt) : elt * nat :=
  match l with
  | [] => (zero, 0)
  | v :: l' => max_from v 0 1 l'
  end.

(** [x.sum(dim=d, keepdim=keepdim)] *)
Definition Tensor_sum (x : Tensor elt) (d : Z) (keepdim : bool) : result (Tensor elt) :=
  d ← wrap_dim d (dim x);
  Ok (reduce_dim sum_list x d keepdim).

(** [x.mean(dim=d, keepdim=keepdim)] *)
Definition Tensor_mean (x : Tensor elt) (d : Z) (keepdim : bool) : result (Tensor elt) :=
  d ← wrap_dim d (dim x);
  Ok (reduce_dim mean_list x d keepdim).

(** [x.max(dim=d, keepdim=keepdim)]: the pair [(values, indices)]. *)
Definition Tensor_max (x : Tensor elt) (d : Z) (keepdim : bool)
  : result (Tensor elt * Tensor Z) :=
  d ← wrap_dim d (dim x);
  if bool_decide (size_at x d = 0)
  then Raise (IndexError "max(): Expected reduction dim to have non-zero size.")
  else Ok (reduce_dim (fun l => (max_list l).1) x d keepdim,
           reduce_dim (fun l => Z.of_nat (max_list l).2) x d keepdim).

End reductions.

(** [batch.max().item()] of an integer tensor: the largest entry; a tensor
    without entries raises. *)
Definition Tensor_max_item (batch : Tensor Z) : result Z :=
  match data batch with
  | [] => Raise (RuntimeError "max(): Expected reduction dim to be specified for input.numel() == 0.")
  | v :: l => Ok (foldl Z.max v l)
  end.

Section glob.
Context {elt : Type} `{Scalar elt} `{Scatter elt}.

(** [int(batch.max().item() + 1) if size is None else size] *)
Definition batch_size (batch : Tensor Z) (size : option Z) : result Z :=
  match size with
  | None => m ← Tensor_max_item batch; Ok (m + 1)%Z
  | Some size => Ok size
  end.

Definition global_add_pool (x : Tensor elt) (batch : option (Tensor Z))
    (size : option Z) : result (Tensor elt) :=
  match batch with
  | None => Tensor_sum x (-2) (bool_decide (dim x = 2))
  | Some batch =>
    size ← batch_size batch size;
    scatter x batch (-2)%Z (Some size) "add"
  end.

Definition global_mean_pool (x : Tensor elt) (batch : option (Tensor Z))
    (size : option Z) : result (Tensor elt) :=
  match batch with
  | None => Tensor_mean x (-2) (bool_decide (dim x = 2))
  | Some batch =>
    size ← batch_size batch size;
    scatter x batch (-2)%Z (Some size) "mean"
  end.

Definition global_max_pool (x : Tensor elt) (batch : option (Tensor Z))
    (size : option Z) : result (Tensor elt) :=
  match batch with
  | None => fst <$> Tensor_max x (-2) (bool_decide (dim x = 2))
  | Some batch =>
    size ← batch_size batch size;
    scatter x batch (-2)%Z (Some size) "max"
  end.

(** The three reducers, for statements that hold of each of them. *)
Inductive reducer : Type := Add_pool | Mean_pool | Max_pool.

(** The argument [reduce] that each passes to [scatter]. *)
Definition reduce_name (r : reducer) : string :=
  match r with
  | Add_pool => "add"
  | Mean_pool => "mean"
  | Max_pool => "max"
  end.

Definition global_pool (r : reducer)
  : Tensor elt -> option (Tensor Z) -> option Z -> result (Tensor elt) :=
  match r with
  | Add_pool => global_add_pool
  | Mean_pool => global_mean_pool
  | Max_pool => global_max_pool
  end.

End glob.
End Glob.

(** ** LinkNeighborLoader: the assembly of one batch

    Modelled from the spec: [torch_geometric/loader/link_neighbor_loader.py]
    is not among the sources; the tests of the loader are.  The module
    follows the five steps that the specification gives for a batch:
    [make_batch] for a homogeneous graph, [make_hetero_batch] for a
    heterogeneous graph, with or without times.  The sampling kernels of
    [torch_sparse] are parameters. *)

Module Loader.

(** [torch.randint(high, (count,))]: the generator is a stream of integers
    read from a position, which the call advances. *)
Definition rng : Type := (nat -> Z) * nat.

Definition randint (high : Z) (count : nat) (g : rng) : list Z * rng :=
  ((fun k => g.1 (g.2 + k)%nat `mod` high)%Z <$> seq 0 count, (g.1, (g.2 + count)%nat)).

(** [t[i]] for [0 <= i < len(t)]. *)
Definition index {A} (t : list A) (i : Z) : result A :=
  if bool_decide (0 ≤ i)%Z then
    match t !! Z.to_nat i with
    | Some a => Ok a
    | None => Raise (IndexError "index out of range")
    end
  else Raise (IndexError "index out of range").

Section loader.
Context {feat attr : Type}.

(** A homogeneous graph, as [torch_geometric.data.Data] holds it: a row of
    features per node, the edges as pairs [(source, destination)] of node
    ids, and a row of attributes per edge. *)
Record Data : Type := {
  x : list feat;
  edge_index : list (Z * Z);
  edge_attr : list attr;
}.

Definition num_nodes (d : Data) : nat := length (x d).

(** A mini-batch: the sampled subgraph with the seed edges and their
    labels; every node id is local to the batch. *)
Record Batch : Type := {
  batch_data : Data;
  edge_label_index : list (Z * Z);
  edge_label : option (list Z);
}.

(** The sampling kernel is an operator of the extension [torch_sparse]:
    from the edges of the graph, [num_neighbors], [directed] and the seed
    nodes, it returns the ids of the sampled edges. *)
Context (neighbor_sample : list (Z * Z) -> list Z -> bool -> list Z -> list Z).

(** Modelled from the spec: step (1), "optionally generate negative edge
    samples": [int(num_pos * neg_sampling_ratio)] random pairs of nodes are
    appended to the seed edges with label 0.  The labels are those that
    [test_link_neighbor_loader_edge_label],
    [test_homogeneous_link_neighbor_loader] and
    [test_heterogeneous_link_neighbor_loader] observe: without negative
    samples the given labels are kept; with them, a seed edge without a
    given label gets 1.  Of given labels under negative sampling the tests
    show one case only, the label 1 stored as 2; the successor stands for
    it here, and no statement below relies on its value at another
    label. *)
Definition create_label (neg_sampling_ratio : Q) (num_src num_dst : Z)
    (seeds : list (Z * Z)) (labels : option (list Z)) (g : rng)
  : list (Z * Z) * option (list Z) * rng :=
  let num_pos := length seeds in
  let num_neg := Z.to_nat (Qfloor (inject_Z (Z.of_nat num_pos) * neg_sampling_ratio)) in
  if bool_decide (num_neg = 0) then (seeds, labels, g) else
  let pos_label :=
    match labels with
    | None => replicate num_pos 1%Z
    | Some ls => Z.succ <$> ls
    end in
  let '(neg_row, g) := randint num_src num_neg g in
  let '(neg_col, g) := randint num_dst num_neg g in
  (seeds ++ zip neg_row neg_col, Some (pos_label ++ replicate num_neg 0%Z), g).

(** Modelled from the spec: step (3), "remap sampled global node ids to a
    compact local numbering".  Every node id gets the position of its first
    occurrence among the distinct ids met so far. *)
Fixpoint compact (seen ids : list Z) : list Z :=
  match ids with
  | [] => seen
  | v :: ids' => compact (if bool_decide (v ∈ seen) then seen else seen ++ [v]) ids'
  end.

Definition local_id (nodes : list Z) (v : Z) : result Z :=
  match list_find (fun u => u = v) nodes with
  | Some (i, _) => Ok (Z.of_nat i)
  | None => Raise (IndexError "node was not sampled")
  end.

Definition relabel (nodes : list Z) (e : Z * Z) : result (Z * Z) :=
  row ← local_id nodes e.1; col ← local_id nodes e.2; Ok (row, col).

Definition endpoints (edges : list (Z * Z)) : list Z :=
  (fst <$> edges) ++ (snd <$> edges).

(** Modelled from the spec: the steps (1) to (5) for the seed edges of one
    batch: negative samples; the sampled neighbourhood of the seed nodes;
    the local numbering of the seed nodes and of the end points of the
    sampled edges; the rows of [x] and [edge_attr] of the sampled nodes and
    edges; the batch, whose [edge_index] and [edge_label_index] are in
    local ids. *)
Definition make_batch (d : Data) (num_neighbors : list Z) (directed : bool)
    (neg_sampling_ratio : Q) (seeds : list (Z * Z)) (labels : option (list Z))
    (g : rng) : result Batch :=
  let n := Z.of_nat (num_nodes d) in
  let '(label_index, label, _) := create_label neg_sampling_ratio n n seeds labels g in
  let seed_nodes := endpoints label_index in
  let edge_ids := neighbor_sample (edge_index d) num_neighbors directed seed_nodes in
  edges ← result_map (index (edge_index d)) edge_ids;
  let nodes := compact [] (seed_nodes ++ endpoints edges) in
  batch_x ← result_map (index (x d)) nodes;
  batch_edge_attr ← result_map (index (edge_attr d)) edge_ids;
  batch_edge_index ← result_map (relabel nodes) edges;
  batch_label_index ← result_map (relabel nodes) label_index;
  Ok {| batch_data := {| x := batch_x;
                         edge_index := batch_edge_index;
                         edge_attr := batch_edge_attr |};
        edge_label_index := batch_label_index;
        edge_label := label |}.

(** The graph and the seed edges are consistent, and the kernel returns
    ids of edges of the graph. *)
Definition in_range (n : nat) (v : Z) : Prop := (0 ≤ v < Z.of_nat n)%Z.

Definition valid_edges (n : nat) (edges : list (Z * Z)) : Prop :=
  Forall (fun e => in_range n e.1 ∧ in_range n e.2) edges.

Definition valid_graph (d : Data) : Prop :=
  valid_edges (num_nodes d) (edge_index d)
  ∧ length (edge_attr d) = length (edge_index d).

Definition valid_sampler (d : Data) : Prop :=
  forall num_neighbors directed seed_nodes,
    Forall (in_range (length (edge_index d)))
           (neighbor_sample (edge_index d) num_neighbors directed seed_nodes).

(** *** What a batch is to the graph

    [slices ids global local]: the rows [local] are the rows of [global] at
    the ids [ids], one for one and in order. *)
Definition slices {A} (ids : list Z) (global local : list A) : Prop :=
  Forall2 (fun i row => index global i = Ok row) ids local.

(** [stands_for src_nodes dst_nodes e e']: the pair [e'] of local ids is the
    pair [e] of node ids of the graph: the node of local id [e'.1] is [e.1]
    in the numbering of the source nodes, and the node of local id [e'.2]
    is [e.2] in that of the destination nodes. *)
Definition stands_for (src_nodes dst_nodes : list Z) (e e' : Z * Z) : Prop :=
  index src_nodes e'.1 = Ok e.1 /\ index dst_nodes e'.2 = Ok e.2.

(** The batch [b] of the seed edges [seeds] is a subgraph of [d] in a
    compact local numbering.  The first five conjuncts are what
    [test_homogeneous_link_neighbor_loader] asserts.  The rest gives the
    numbering: [nodes] lists, without repetition, the node of the graph
    behind each local id, and these are exactly the end points of the seed
    edges, of the negative samples and of the sampled edges; row [k] of
    [x] is the row of node [nodes[k]]; the edges of the batch are the
    edges that the kernel sampled, end point by end point, with their
    attributes; the columns of [edge_label_index] are the seed edges
    followed by the negative samples. *)
Definition batch_invariant (d : Data) (num_neighbors : list Z) (directed : bool)
    (seeds : list (Z * Z)) (b : Batch) : Prop :=
  valid_edges (num_nodes (batch_data b)) (edge_index (batch_data b))
  /\ valid_edges (num_nodes (batch_data b)) (edge_label_index b)
  /\ Forall (fun row => row ∈ x d) (x (batch_data b))
  /\ Forall (fun row => row ∈ edge_attr d) (edge_attr (batch_data b))
  /\ num_nodes (batch_data b) <= num_nodes d
  /\ exists (nodes edge_ids : list Z) (edges label_index : list (Z * Z)),
       NoDup nodes
       /\ (forall v, v ∈ nodes <-> v ∈ endpoints label_index \/ v ∈ endpoints edges)
       /\ slices nodes (x d) (x (batch_data b))
       /\ edge_ids = neighbor_sample (edge_index d) num_neighbors directed
                                     (endpoints label_index)
       /\ slices edge_ids (edge_index d) edges
       /\ slices edge_ids (edge_attr d) (edge_attr (batch_data b))
       /\ Forall2 (stands_for nodes nodes) edges (edge_index (batch_data b))
       /\ take (length seeds) label_index = seeds
       /\ Forall2 (stands_for nodes nodes) label_index (edge_label_index b).

(** [numbering d b nodes]: [nodes] lists, without repetition, the node of
    the graph behind each local id of the batch, and row [k] of the
    batch's [x] is the row of the node [nodes[k]]. *)
Definition numbering (d : Data) (b : Batch) (nodes : list Z) : Prop :=
  NoDup nodes /\ slices nodes (x d) (x (batch_data b)).

(** *** Heterogeneous graphs

    A graph with several node types and relations, as
    [torch_geometric.data.HeteroData] holds it: per node type the rows of
    [x] and, where the graph is temporal, a time per node; per edge type
    [(source type, relation, destination type)] the edges, whose ids are
    local to the two node types, and optionally a row of attributes per
    edge.  The two-part keys of the tests, as [('paper', 'author')], stand
    for the relation ['to'].  A pair of a feature store and a graph store,
    as [test_custom_heterogeneous_link_neighbor_loader] fills it, holds the
    same rows under the same node types and the same edges under the same
    edge types, without edge attributes. *)
Definition edge_type : Type := string * string * string.
Definition src_type (et : edge_type) : string := et.1.1.
Definition dst_type (et : edge_type) : string := et.2.

Record NodeStore : Type := {
  node_x : list feat;
  node_time : option (list Z);
}.

Record EdgeStore : Type := {
  store_index : list (Z * Z);
  store_attr : option (list attr);
}.

Record HeteroData : Type := {
  node_stores : list (string * NodeStore);
  edge_stores : list (edge_type * EdgeStore);
}.

(** The batch: the sampled subgraph, and on the edge type of the seed
    edges their columns and labels. *)
Record HeteroBatch : Type := {
  hetero_data : HeteroData;
  label_type : edge_type;
  hetero_label_index : list (Z * Z);
  hetero_label : option (list Z);
}.

(** [stores[key]] *)
Fixpoint lookup_store {K A : Type} `{EqDecision K} (key : K) (stores : list (K * A))
  : result A :=
  match stores with
  | [] => Raise (RuntimeError "KeyError")
  | (k, a) :: stores' => if decide (k = key) then Ok a else lookup_store key stores'
  end.

(** The rows at [ids] of an attribute that may be absent. *)
Definition slice_option {A} (ids : list Z) (t : option (list A)) : result (option (list A)) :=
  match t with
  | None => Ok None
  | Some rows => Some <$> result_map (index rows) ids
  end.

(** The end points of type [t] of edges of type [et]. *)
Definition typed_endpoints (t : string) (et : edge_type) (edges : list (Z * Z)) : list Z :=
  (if bool_decide (src_type et = t) then fst <$> edges else [])
  ++ (if bool_decide (dst_type et = t) then snd <$> edges else []).

Definition relabel_typed (src_nodes dst_nodes : list Z) (e : Z * Z) : result (Z * Z) :=
  row ← local_id src_nodes e.1; col ← local_id dst_nodes e.2; Ok (row, col).

(** The heterogeneous kernels of [torch_sparse], with and without times:
    from the graph, [num_neighbors], [directed], [time_attr] and the seed
    nodes by type, the ids of the sampled edges of each edge type. *)
Context (hetero_neighbor_sample :
           HeteroData -> list Z -> bool -> option string -> list (string * list Z) ->
           edge_type -> list Z).

(** Modelled from the spec: the steps (1) to (5) for seed edges of the type
    [seed_type] of a heterogeneous graph.  Negative samples pair a node of
    the source type with a node of the destination type; every node type
    has its own local numbering; an edge type whose node types the graph
    does not hold raises. *)
Definition make_hetero_batch (d : HeteroData) (num_neighbors : list Z) (directed : bool)
    (time_attr : option string) (neg_sampling_ratio : Q) (seed_type : edge_type)
    (seeds : list (Z * Z)) (labels : option (list Z)) (g : rng) : result HeteroBatch :=
  src_store ← lookup_store (src_type seed_type) (node_stores d);
  dst_store ← lookup_store (dst_type seed_type) (node_stores d);
  let '(label_index, label, _) :=
    create_label neg_sampling_ratio
      (Z.of_nat (length (node_x src_store))) (Z.of_nat (length (node_x dst_store)))
      seeds labels g in
  let seed_nodes :=
    [(src_type seed_type, fst <$> label_index); (dst_type seed_type, snd <$> label_index)] in
  sampled ←
    result_map (fun '(et, store) =>
                  _ ← lookup_store (src_type et) (node_stores d);
                  _ ← lookup_store (dst_type et) (node_stores d);
                  let edge_ids :=
                    hetero_neighbor_sample d num_neighbors directed time_attr seed_nodes et in
                  edges ← result_map (index (store_index store)) edge_ids;
                  attrs ← slice_option edge_ids (store_attr store);
                  Ok (et, edges, attrs))
               (edge_stores d);
  let nodes_of t :=
    compact [] (typed_endpoints t seed_type label_index
                ++ (sampled ≫= fun '(et, edges, _) => typed_endpoints t et edges)) in
  batch_nodes ←
    result_map (fun '(t, store) =>
                  rows ← result_map (index (node_x store)) (nodes_of t);
                  times ← slice_option (nodes_of t) (node_time store);
                  Ok (t, {| node_x := rows; node_time := times |}))
               (node_stores d);
  batch_edges ←
    result_map (fun '(et, edges, attrs) =>
                  local ← result_map (relabel_typed (nodes_of (src_type et))
                                                    (nodes_of (dst_type et))) edges;
                  Ok (et, {| store_index := local; store_attr := attrs |}))
               sampled;
  batch_label_index ←
    result_map (relabel_typed (nodes_of (src_type seed_type))
                              (nodes_of (dst_type seed_type))) label_index;
  Ok {| hetero_data := {| node_stores := batch_nodes; edge_stores := batch_edges |};
        label_type := seed_type;
        hetero_label_index := batch_label_index;
        hetero_label := label |}.

(** The rows [local] of an attribute that may be absent are those of
    [global] at [ids]. *)
Definition slices_option {A} (ids : list Z) (global local : option (list A)) : Prop :=
  match global, local with
  | None, None => True
  | Some rows, Some rows' => slices ids rows rows'
  | _, _ => False
  end.

(** The edges [edges] lie between node stores of [stores]: those of the
    source and of the destination type of [et] are there, and every edge
    joins a row of the one to a row of the other. *)
Definition edges_between (stores : list (string * NodeStore)) (et : edge_type)
    (edges : list (Z * Z)) : Prop :=
  exists src_store dst_store,
    lookup_store (src_type et) stores = Ok src_store
    /\ lookup_store (dst_type et) stores = Ok dst_store
    /\ Forall (fun e => in_range (length (node_x src_store)) e.1
                        /\ in_range (length (node_x dst_store)) e.2) edges.

(** The heterogeneous batch [b] of the seed edges [seeds] of type
    [seed_type] is a subgraph of [d] in compact local numberings, one per
    node type.  [nodes_of t] lists, without repetition, the node of type
    [t] behind each local id of that type: exactly the end points of type
    [t] of the seed edges, the negative samples and the sampled edges.  The
    batch holds the node types and the edge types of the graph, in order;
    the rows of [x] (and the times) of a node type are those of the nodes
    [nodes_of t]; the edges of an edge type are the edges that the kernel
    sampled for it, end point by end point in the numberings of its two
    node types, with their attributes, and their ids are below the numbers
    of nodes of the batch; the columns of [edge_label_index] are the seed
    edges followed by the negative samples. *)
Definition hetero_batch_invariant (d : HeteroData) (num_neighbors : list Z)
    (directed : bool) (time_attr : option string) (seed_type : edge_type)
    (seeds : list (Z * Z)) (b : HeteroBatch) : Prop :=
  exists (nodes_of : string -> list Z) (label_index : list (Z * Z))
         (sampled : list (list (Z * Z))),
    label_type b = seed_type
    /\ (forall t v,
          v ∈ nodes_of t <->
          v ∈ typed_endpoints t seed_type label_index
          \/ exists store edges,
               (store, edges) ∈ zip (edge_stores d) sampled
               /\ v ∈ typed_endpoints t store.1 edges)
    /\ Forall2 (fun store store' =>
                  store'.1 = store.1
                  /\ NoDup (nodes_of store.1)
                  /\ slices (nodes_of store.1) (node_x store.2) (node_x store'.2)
                  /\ slices_option (nodes_of store.1) (node_time store.2)
                                   (node_time store'.2)
                  /\ Forall (fun row => row ∈ node_x store.2) (node_x store'.2)
                  /\ length (node_x store'.2) <= length (node_x store.2))
               (node_stores d) (node_stores (hetero_data b))
    /\ Forall3 (fun store edges store' =>
                  store'.1 = store.1
                  /\ (let edge_ids :=
                        hetero_neighbor_sample d num_neighbors directed time_attr
                          [(src_type seed_type, fst <$> label_index);
                           (dst_type seed_type, snd <$> label_index)] store.1 in
                      slices edge_ids (store_index store.2) edges
                      /\ slices_option edge_ids (store_attr store.2) (store_attr store'.2))
                  /\ Forall2 (stands_for (nodes_of (src_type store.1))
                                         (nodes_of (dst_type store.1)))
                             edges (store_index store'.2)
                  /\ edges_between (node_stores (hetero_data b)) store.1
                                   (store_index store'.2))
               (edge_stores d) sampled (edge_stores (hetero_data b))
    /\ take (length seeds) label_index = seeds
    /\ Forall2 (stands_for (nodes_of (src_type seed_type)) (nodes_of (dst_type seed_type)))
               label_index (hetero_label_index b)
    /\ edges_between (node_stores (hetero_data b)) seed_type (hetero_label_index b).

(** [hetero_numbering d b nodes_of]: the batch holds the node types of the
    graph, and [nodes_of t] is a numbering of the nodes of type [t]. *)
Definition hetero_numbering (d : HeteroData) (b : HeteroBatch)
    (nodes_of : string -> list Z) : Prop :=
  Forall2 (fun store store' =>
             store'.1 = store.1
             /\ NoDup (nodes_of store.1)
             /\ slices (nodes_of store.1) (node_x store.2) (node_x store'.2))
          (node_stores d) (node_stores (hetero_data b)).

(** The graph is consistent: a node type occurs once; times come one per
    node; every edge type lies between node types of the graph, with an
    attribute row per edge where it has attributes. *)
Definition valid_hetero (d : HeteroData) : Prop :=
  NoDup (fst <$> node_stores d)
  /\ Forall (fun store => forall times, node_time store.2 = Some times ->
                                       length times = length (node_x store.2))
            (node_stores d)
  /\ Forall (fun store =>
               edges_between (node_stores d) store.1 (store_index store.2)
               /\ forall rows, store_attr store.2 = Some rows ->
                               length rows = length (store_index store.2))
            (edge_stores d).

Definition valid_hetero_sampler (d : HeteroData) : Prop :=
  forall num_neighbors directed time_attr seed_nodes store,
    store ∈ edge_stores d ->
    Forall (in_range (length (store_index store.2)))
           (hetero_neighbor_sample d num_neighbors directed time_attr seed_nodes store.1).

End loader.
End Loader.

(** ** test/loader/test_link_neighbor_loader.py: what the tests assert *)

Module Test.

(** [unique_edge_pairs(edge_index)]: the set of the columns of a tensor of
    shape [(2, E)], each as a pair. *)
Definition unique_edge_pairs (edge_index : list (Z * Z)) : gset (Z * Z) :=
  list_to_set edge_index.

(** [edge_label_index[:, edge_label == v]]: the columns whose label is [v]. *)
Definition with_label (edge_label_index : list (Z * Z)) (edge_label : list Z) (v : Z)
  : list (Z * Z) :=
  omap (fun '(e, l) => if bool_decide (l = v) then Some e else None)
       (zip edge_label_index edge_label).

(** Lines 68-71: "positive samples are present in the original graph". *)
Definition positives_present (edge_index edge_label_index : list (Z * Z))
    (edge_label : list Z) : bool :=
  let edge_index := unique_edge_pairs edge_index in
  let edge_label_index := unique_edge_pairs (with_label edge_label_index edge_label 1) in
  bool_decide (size (edge_index ∪ edge_label_index) = size edge_index).

(** Lines 74-77: "negative samples are not present in the original graph". *)
Definition negatives_absent (edge_index edge_label_index : list (Z * Z))
    (edge_label : list Z) : bool :=
  let edge_index := unique_edge_pairs edge_index in
  let edge_label_index := unique_edge_pairs (with_label edge_label_index edge_label 0) in
  bool_decide (size (edge_index ∩ edge_label_index) = 0).

End Test.

(** ** Concrete instances, for the examples *)

Module Example.

(** Tensors with integer entries; [div_count] is the floor division. *)
#[export] Instance Z_scalar : Glob.Scalar Z := {|
  Glob.zero := 0%Z;
  Glob.add := Z.add;
  Glob.div_count := fun s n => (s `div` Z.of_nat n)%Z;
  Glob.leb := Z.leb;
|}.

(** A reference [scatter] for the use the pooling functions make of it on a
    matrix: [src] of shape [(N, F)], [index] with [N] entries in
    [[0, dim_size)], [dim = -2].  Row [b] of the output reduces the rows [n]
    of [src] with [index[n] = b]. *)
Definition rows_of (index : list Z) (b : Z) : list nat :=
  omap (fun '(n, i) => if bool_decide (i = b) then Some n else None)
       (zip (seq 0 (length index)) index).

Definition scatter_rows (reduce : list Z -> Z) (src : Glob.Tensor Z) (index : list Z)
    (n_features : nat) (dim_size : nat) : Glob.Tensor Z :=
  Glob.mkTensor [dim_size; n_features]
    ((fun k =>
        reduce (omap (fun n => Glob.data src !! (n * n_features + k `mod` n_features))
                     (rows_of index (Z.of_nat (k / n_features)))))
       <$> seq 0 (dim_size * n_features)).

#[export] Instance Z_scatter : Glob.Scatter Z := fun src index d dim_size reduce =>
  match Glob.shape src, dim_size with
  | [n; f], Some size =>
    if bool_decide (d = (-2)%Z ∧ length (Glob.data index) = n
                    ∧ Forall (fun i => (0 ≤ i < size)%Z) (Glob.data index))
    then
      if String.eqb reduce "add" then
        Ok (scatter_rows Glob.sum_list src (Glob.data index) f (Z.to_nat size))
      else if String.eqb reduce "mean" then
        Ok (scatter_rows (fun l => Glob.div_count (Glob.sum_list l) (Nat.max (length l) 1))
              src (Glob.data index) f (Z.to_nat size))
      else if String.eqb reduce "max" then
        Ok (scatter_rows (fun l => (Glob.max_list l).1) src (Glob.data index) f (Z.to_nat size))
      else Raise (ValueError "unknown reduce")
    else Raise (RuntimeError "index out of range")
  | _, _ => Raise (RuntimeError "not covered by the reference scatter")
  end.

(** A small version of torch for [Multi]: tensors are lists of integers, an
    aggregation is known by its name, [Linear] is the identity and the
    attention returns its query. *)
Definition aggregate (name : string) (x : list Z) : result (list Z) :=
  if String.eqb name "sum" then Ok [foldr Z.add 0%Z x]
  else if String.eqb name "max" then Ok [foldr Z.max 0%Z x]
  else if String.eqb name "min" then Ok [foldr Z.min 0%Z x]
  else Raise (ValueError "unknown aggregation").

#[export] Instance small_torch : Multi.Torch := {|
  Multi.Tensor := list Z;
  Multi.Aggregation := string;
  Multi.Linear_module := unit;
  Multi.MultiheadAttention_module := unit;
  Multi.Aggregation_call := fun a x _ _ _ _ => aggregate a x;
  Multi.Linear := fun _ _ _ => Ok tt;
  Multi.Linear_call := fun _ x => Ok x;
  Multi.MultiheadAttention := fun _ _ _ => Ok tt;
  Multi.MultiheadAttention_call := fun _ q _ _ => Ok (q, q);
  Multi.torch_cat := fun xs _ => Ok (concat xs);
  Multi.torch_stack := fun xs _ => Ok (concat xs);
  Multi.torch_mean := fun x _ => Ok x;
  Multi.torch_dense := fun _ x _ => Ok (inl x);
|}.

(** An instance with the single aggregator ['sum']. *)
Definition one_sum (mode : option string) : Multi.MultiAggregation := {|
  Multi.aggrs := ["sum"];
  Multi.mode := mode;
  Multi.lin := None;
  Multi.lin_heads := None;
  Multi.multihead_attn := None;
  Multi.dense_combine := None;
|}.

(** The aggregators ['sum'] and ['max'] under a mode, with the attributes
    that [__init__] sets for it in [small_torch]. *)
Definition sum_max (mode : string) (lin : option unit) (lin_heads : option (list unit))
    (multihead_attn : option unit) : Multi.MultiAggregation := {|
  Multi.aggrs := ["sum"; "max"];
  Multi.mode := Some mode;
  Multi.lin := lin;
  Multi.lin_heads := lin_heads;
  Multi.multihead_attn := multihead_attn;
  Multi.dense_combine := None;
|}.
Definition sum_max_names : Multi.aggrs_arg :=
  Multi.AggrsList [Multi.ByName "sum"; Multi.ByName "max"].

(** [mode_kwargs] with the two channel sizes. *)
Definition channels : kwargs :=
  <["in_channels" := PyInt 4]> {["out_channels" := PyInt 8]}.

(** An instance whose second aggregator raises. *)
Definition sum_bogus_max : Multi.MultiAggregation := {|
  Multi.aggrs := ["sum"; "bogus"; "max"];
  Multi.mode := Some "cat";
  Multi.lin := None;
  Multi.lin_heads := None;
  Multi.multihead_attn := None;
  Multi.dense_combine := None;
|}.

(** A resolver that knows three names and returns a module as it is. *)
Definition small_resolver (q : Multi.aggr_query) (_ : kwargs) : result string :=
  match q with
  | Multi.ByName name =>
    if bool_decide (name ∈ ["sum"; "max"; "min"]) then Ok name
    else Raise (ValueError ("Could not resolve '" +:+ name +:+ "'"))
  | Multi.ByModule a => Ok a
  end.

(** A sampling kernel for one hop without a bound: every edge that enters a
    seed node. *)
Definition one_hop (edges : list (Z * Z)) (num_neighbors : list Z) (directed : bool)
    (seed_nodes : list Z) : list Z :=
  omap (fun '(k, e) => if bool_decide (e.2 ∈ seed_nodes) then Some (Z.of_nat k) else None)
       (zip (seq 0 (length edges)) edges).

(** A path [0 -> 1 -> 2 -> 3] with features [10 .. 13]. *)
Definition path : Loader.Data (feat := Z) (attr := Z) := {|
  Loader.x := [10; 11; 12; 13]%Z;
  Loader.edge_index := [(0, 1); (1, 2); (2, 3)]%Z;
  Loader.edge_attr := [100; 101; 102]%Z;
|}.

(** A generator that counts. *)
Definition counter : Loader.rng := (Z.of_nat, 0).

(** The same kernel for a heterogeneous graph: of the edges of one edge
    type, those that enter a seed node of its destination type. *)
Definition hetero_one_hop (d : Loader.HeteroData (feat := Z) (attr := Z))
    (num_neighbors : list Z) (directed : bool) (time_attr : option string)
    (seed_nodes : list (string * list Z)) (et : Loader.edge_type) : list Z :=
  match Loader.lookup_store et (Loader.edge_stores d) with
  | Ok store =>
    one_hop (Loader.store_index store) num_neighbors directed
      (seed_nodes ≫= fun '(t, ids) => if bool_decide (t = Loader.dst_type et) then ids else [])
  | Raise _ => []
  end.

(** Three papers and four authors, the authors with a time; papers cite
    papers, papers have authors, and authors write papers. *)
Definition library : Loader.HeteroData (feat := Z) (attr := Z) := {|
  Loader.node_stores :=
    [("paper", {| Loader.node_x := [0; 1; 2]%Z; Loader.node_time := None |});
     ("author", {| Loader.node_x := [100; 101; 102; 103]%Z;
                   Loader.node_time := Some [5; 6; 7; 8]%Z |})];
  Loader.edge_stores :=
    [(("paper", "to", "paper"),
      {| Loader.store_index := [(0, 1); (1, 2)]%Z;
         Loader.store_attr := Some [200; 201]%Z |});
     (("paper", "to", "author"),
      {| Loader.store_index := [(0, 0); (1, 2); (2, 3)]%Z;
         Loader.store_attr := Some [300; 301; 302]%Z |});
     (("author", "to", "paper"),
      {| Loader.store_index := [(0, 1); (3, 2)]%Z;
         Loader.store_attr := None |})];
|}.

(** A matrix of shape [(3, 2)], a vector and a tensor of shape [(2, 3, 2)]. *)
Definition matrix : Glob.Tensor Z := Glob.mkTensor [3; 2] [1; 2; 3; 4; 5; 6]%Z.
Definition vector : Glob.Tensor Z := Glob.mkTensor [3] [1; 2; 3]%Z.
Definition cube : Glob.Tensor Z :=
  Glob.mkTensor [2; 3; 2] [1; 2; 3; 4; 5; 6; 7; 8; 9; 10; 11; 12]%Z.

End Example.

(** * Properties *)

(** ** Results *)

Lemma bind_Ok {A B} (m : result A) (f : A -> result B) (b : B) :
  m ≫= f = Ok b <-> exists a, m = Ok a /\ f a = Ok b.
Proof.
  destruct m as [a|e]; simpl.
  - split; [eauto | intros (a' & [= <-] & E); exact E].
  - split; [discriminate | intros (a' & [=] & _)].
Qed.

Lemma result_map_Ok {A B} (f : A -> result B) (l : list A) (ys : list B) :
  result_map f l = Ok ys <-> Forall2 (fun a b => f a = Ok b) l ys.
Proof.
  revert ys. induction l as [|a l IH]; intros ys; simpl.
  - split; [intros [= <-]; constructor | intros E; inversion E; reflexivity].
  - rewrite bind_Ok. split.
    + intros (b & Eb & E). apply bind_Ok in E as (bs & Ebs & [= <-]).
      constructor; [exact Eb | apply IH, Ebs].
    + intros E. inversion E as [|? b ? bs Eb Ebs]; subst.
      exists b. split; [exact Eb|]. apply bind_Ok. exists bs.
      split; [apply IH, Ebs | reflexivity].
Qed.

Lemma result_map_length {A B} (f : A -> result B) (l : list A) (ys : list B) :
  result_map f l = Ok ys -> length ys = length l.
Proof. rewrite result_map_Ok. intros E. symmetry. exact (Forall2_length _ _ _ E). Qed.

Lemma result_map_total {A B} (f : A -> result B) (l : list A) :
  Forall (fun a => is_Ok (f a)) l -> is_Ok (result_map f l).
Proof.
  induction 1 as [|a l [b Eb] _ [bs Ebs]]; simpl.
  - eexists; reflexivity.
  - rewrite Eb, Ebs. eexists; reflexivity.
Qed.

(** ** multi.py *)

Section multi_facts.
Context `{Multi.Torch}.
Import Multi.

(** The loop over the aggregators calls them in order, stops at the first
    one that raises, and never calls [combine]. *)
Lemma call_aggrs_run l x index ptr dim_size dim tr :
  exists evs,
    (call_aggrs l x index ptr dim_size dim tr).2 = tr ++ evs
    /\ Forall is_aggr_call evs
    /\ match (call_aggrs l x index ptr dim_size dim tr).1 with
       | Ok outs =>
         Forall2 (fun a out => Aggregation_call a x index ptr dim_size dim = Ok out) l outs
       | Raise e =>
         Exists (fun a => Aggregation_call a x index ptr dim_size dim = Raise e) l
       end.
Proof.
  revert tr. induction l as [|a l IH]; intros tr.
  - exists []. simpl. rewrite app_nil_r. repeat split; constructor.
  - cbn [call_aggrs]. unfold mbind, traced_mbind, traced_bind, emit, lift. cbn.
    destruct (Aggregation_call a x index ptr dim_size dim) as [out|e] eqn:Ea.
    + destruct (IH (tr ++ [Call_aggr a])) as (evs & Etr & Hevs & Hres).
      destruct (call_aggrs l x index ptr dim_size dim (tr ++ [Call_aggr a]))
        as [[outs|e] tr'] eqn:El; cbn in *.
      * exists (Call_aggr a :: evs). rewrite Etr, <- app_assoc. repeat split.
        -- constructor; [exact I | exact Hevs].
        -- constructor; assumption.
      * exists (Call_aggr a :: evs). rewrite Etr, <- app_assoc. repeat split.
        -- constructor; [exact I | exact Hevs].
        -- apply Exists_cons_tl, Hres.
    + exists [Call_aggr a]. repeat split.
      * constructor; [exact I | constructor].
      * apply Exists_cons_hd, Ea.
Qed.

Lemma not_combine_called_aggr_calls evs :
  Forall is_aggr_call evs -> ~ combine_called evs.
Proof.
  intros Hevs (inputs & Hin). rewrite Forall_forall in Hevs.
  exact (Hevs _ Hin).
Qed.

Lemma forward_one self a x index ptr dim_size dim :
  aggrs self = [a] ->
  run (forward self x index ptr dim_size dim)
  = (Aggregation_call a x index ptr dim_size dim, [Call_aggr a]).
Proof.
  intros Ha. unfold run, forward. rewrite Ha.
  unfold mbind, traced_mbind, traced_bind. cbn.
  unfold mbind, traced_mbind, traced_bind, emit, lift. cbn.
  destruct (Aggregation_call a x index ptr dim_size dim); reflexivity.
Qed.

Lemma forward_combine_called self x index ptr dim_size dim :
  combine_called (run (forward self x index ptr dim_size dim)).2 <->
  2 <= length (aggrs self)
  /\ Forall (fun a => is_Ok (Aggregation_call a x index ptr dim_size dim)) (aggrs self).
Proof.
  unfold run, forward, mbind, traced_mbind, traced_bind.
  destruct (call_aggrs_run (aggrs self) x index ptr dim_size dim [])
    as (evs & Etr & Hevs & Hres).
  destruct (call_aggrs (aggrs self) x index ptr dim_size dim [])
    as [[outs|e] tr] eqn:El; cbn in *; subst tr.
  - pose proof (Forall2_length _ _ _ Hres) as Hlen.
    assert (Forall (fun a => is_Ok (Aggregation_call a x index ptr dim_size dim))
              (aggrs self)) as Hok.
    { clear -Hres. induction Hres; constructor; [eexists; eassumption | assumption]. }
    case_bool_decide as Hn.
    + split; [intros _; split; [lia | exact Hok] |].
      intros _. exists outs. unfold combine, mbind, traced_mbind, traced_bind, emit, lift.
      cbn. apply elem_of_app; right; apply list_elem_of_here.
    + split; [| intros [? _]; lia].
      intros Hc. exfalso. unfold lift in Hc. cbn in Hc.
      exact (not_combine_called_aggr_calls _ Hevs Hc).
  - split.
    + intros Hc. exfalso. exact (not_combine_called_aggr_calls _ Hevs Hc).
    + intros [_ Hok]. exfalso. rewrite Forall_forall in Hok.
      apply Exists_exists in Hres as (a & Ha & Ea).
      destruct (Hok a Ha) as [out Eout]. congruence.
Qed.

(** C9.  An instance with exactly one aggregator: [forward] calls that
    aggregator once and returns what it returns (its output, or the
    exception it raises), whatever the combine mode and the other attributes
    are, and [combine] is not called.  For any instance, [combine] is called
    during [forward] exactly when there are two or more aggregators and all
    of them return. *)
Theorem forward_single_aggregator (self : MultiAggregation) (x : Tensor)
    (index ptr : option Tensor) (dim_size : option Z) (dim : Z) :
  (forall a, aggrs self = [a] ->
     run (forward self x index ptr dim_size dim)
     = (Aggregation_call a x index ptr dim_size dim, [Call_aggr a])
     /\ ~ combine_called (run (forward self x index ptr dim_size dim)).2)
  /\ (combine_called (run (forward self x index ptr dim_size dim)).2 <->
      2 <= length (aggrs self)
      /\ Forall (fun a => is_Ok (Aggregation_call a x index ptr dim_size dim))
                (aggrs self)).
Proof.
  split; [| apply forward_combine_called].
  intros a Ha. split; [apply forward_one, Ha |].
  rewrite forward_combine_called, Ha. cbn. lia.
Qed.

(** *** [__init__] *)

Lemma bind_ValueError {A B} (m : result A) (f : A -> result B) :
  is_ValueError (m ≫= f) <->
  is_ValueError m \/ exists a, m = Ok a /\ is_ValueError (f a).
Proof.
  destruct m as [a|e]; simpl.
  - split; [eauto | intros [[msg [=]] | (a' & [= <-] & E)]; exact E].
  - split; [intros [msg [= ->]]; left; exists msg; reflexivity |].
    intros [[msg [= ->]] | (a' & [=] & _)]; exists msg; reflexivity.
Qed.

Lemma py_iter_not_ValueError v : ~ is_ValueError (py_iter v).
Proof. destruct v; intros [msg [=]]. Qed.

Lemma py_sum_from_not_ValueError items acc : ~ is_ValueError (py_sum_from acc items).
Proof.
  revert acc. induction items as [|v items IH]; intros acc; simpl.
  - intros [msg [=]].
  - rewrite bind_ValueError. intros [E | (acc' & _ & E)]; [| exact (IH _ E)].
    destruct v; destruct E as [msg [=]].
Qed.

Lemma py_sum_not_ValueError v : ~ is_ValueError (py_sum v).
Proof.
  unfold py_sum. rewrite bind_ValueError.
  intros [E | (items & _ & E)]; [exact (py_iter_not_ValueError _ E) |].
  apply bind_ValueError in E as [E | (s & _ & [msg [=]])].
  exact (py_sum_from_not_ValueError _ _ E).
Qed.

Lemma result_map_not_ValueError {A B} (f : A -> result B) l :
  (forall a, ~ is_ValueError (f a)) -> ~ is_ValueError (result_map f l).
Proof.
  intros Hf. induction l as [|a l IH]; simpl.
  - intros [msg [=]].
  - rewrite bind_ValueError. intros [E | (b & _ & E)]; [exact (Hf _ E) |].
    apply bind_ValueError in E as [E | (bs & _ & [msg [=]])]. exact (IH E).
Qed.

Lemma fmap_not_ValueError {A B} (g : A -> B) (m : result A) :
  ~ is_ValueError m -> ~ is_ValueError (g <$> m).
Proof.
  destruct m as [a|e]; simpl.
  - intros _ [msg [=]].
  - intros Hm [msg [= ->]]. apply Hm. exists msg. reflexivity.
Qed.

Lemma is_None_py_and a b :
  is_None (py_and a b) = true <-> a = PyNone \/ (truthy a = true /\ b = PyNone).
Proof.
  unfold py_and. destruct (truthy a) eqn:Ta.
  - split.
    + intros E. right. split; [reflexivity|]. destruct b; done.
    + intros [-> | [_ ->]]; [discriminate | reflexivity].
  - split.
    + intros E. left. destruct a; done.
    + intros [-> | [[=] _]]. reflexivity.
Qed.

Lemma mode_is_true mode name : mode_is mode name = true <-> mode = Some name.
Proof. unfold mode_is. apply bool_decide_eq_true. Qed.

Lemma init_mode_ValueError n m mode_kwargs :
  (forall a b k, ~ is_ValueError (Linear a b k)) ->
  (forall a b k, ~ is_ValueError (MultiheadAttention a b k)) ->
  is_ValueError (init_mode n m mode_kwargs) <->
  needs_channels m
  /\ (n = 1 \/ is_None (py_and (channels_in mode_kwargs) (channels_out mode_kwargs)) = true).
Proof.
  intros HL HM. unfold init_mode, needs_channels, channels_in, channels_out, dict_pop.
  rewrite lookup_delete_ne by done.
  destruct (mode_is m "proj" || mode_is m "attn") eqn:Em.
  2:{ split; [intros [msg [=]] |]. intros [Hm _]. exfalso.
      apply orb_false_iff in Em as [E1 E2].
      destruct Hm as [Hm|Hm]; apply mode_is_true in Hm; congruence. }
  assert (m = Some "proj" \/ m = Some "attn") as Hm.
  { apply orb_true_iff in Em as [E|E]; apply mode_is_true in E; auto. }
  case_bool_decide as Hn.
  { split; [auto | intros _; eexists; reflexivity]. }
  destruct (is_None _) eqn:Ec.
  { split; [auto | intros _; eexists; reflexivity]. }
  split; [| intros [_ [?|[=]]]; done].
  intros E. exfalso. revert E.
  set (ic := if isinstance_int _ then _ else _).
  rewrite bind_ValueError. intros [E | (l & _ & E)].
  - destruct (mode_is m "proj"); [| destruct E as [msg [=]]].
    apply bind_ValueError in E as [E | (t & _ & E)].
    + exact (py_sum_not_ValueError _ E).
    + exact (fmap_not_ValueError _ _ (HL _ _ _) E).
  - destruct (mode_is m "attn"); [| destruct E as [msg [=]]].
    apply bind_ValueError in E as [E | (cs & _ & E)];
      [exact (py_iter_not_ValueError _ E) |].
    apply bind_ValueError in E as [E | (hs & _ & E)];
      [exact (result_map_not_ValueError _ _ (fun c => HL c _ _) E) |].
    apply bind_ValueError in E as [E | (at' & _ & [msg [=]])].
    exact (HM _ _ _ E).
Qed.

Lemma bind_not_ValueError_r {A B} (m : result A) (f : A -> result B) :
  (forall a, ~ is_ValueError (f a)) ->
  is_ValueError (m ≫= f) <-> is_ValueError m.
Proof.
  intros Hf. rewrite bind_ValueError. split; [| auto].
  intros [E | (a & _ & E)]; [exact E | destruct (Hf _ E)].
Qed.

Lemma resolve_all resolver (items : list aggr_query) (ks : list kwargs) :
  (forall q k, q ∈ items -> is_Ok (resolver q k)) ->
  is_Ok (result_map (fun '(aggr, aggr_kwargs) => resolver aggr aggr_kwargs : result Aggregation)
           (zip items ks)).
Proof.
  intros Hres. apply result_map_total, Forall_forall.
  intros [q k] Hin. apply Hres. apply elem_of_zip_l in Hin. exact Hin.
Qed.

Lemma init_items_ValueError resolver items aggrs_kwargs m mode_kwargs :
  (forall q k, q ∈ items -> is_Ok (resolver q k)) ->
  (forall a b k, ~ is_ValueError (Linear a b k)) ->
  (forall a b k, ~ is_ValueError (MultiheadAttention a b k)) ->
  is_ValueError (__init__ resolver (AggrsList items) aggrs_kwargs m mode_kwargs) <->
  init_rejects (AggrsList items) aggrs_kwargs m mode_kwargs.
Proof.
  intros Hres HL HM. unfold __init__, init_rejects.
  case_bool_decide as Hn.
  { apply length_zero_iff_nil in Hn.
    split; [auto | intros _; eexists; reflexivity]. }
  assert (items <> []) as Hne by (intros ->; apply Hn; reflexivity).
  destruct aggrs_kwargs as [ks|]; simpl; [case_bool_decide as Hk; simpl |].
  { split; [intros _; right; left; eauto | intros _; eexists; reflexivity]. }
  all: match goal with
       | |- context [zip ?I ?K] =>
         destruct (resolve_all resolver I K Hres) as [resolved ->]
       end; simpl.
  all: rewrite bind_not_ValueError_r by (intros [[? ?] ?] [? [=]]).
  all: rewrite init_mode_ValueError, is_None_py_and by assumption.
  - split; [auto |].
    intros [-> | [(ks' & [= <-] & Hk') | Hc]]; [done | done | exact Hc].
  - split; [auto |].
    intros [-> | [(ks' & [=] & _) | Hc]]; [done | exact Hc].
Qed.

(** X1.  [__init__] raises a [ValueError] exactly under [init_rejects], when
    every entry of [aggrs] is resolved and the constructors of the layers
    raise no [ValueError] themselves. *)
Theorem init_ValueError_exactly resolver (aggrs : aggrs_arg)
    (aggrs_kwargs : option (list kwargs)) (m : option string)
    (mode_kwargs : option kwargs) :
  (forall q k, q ∈ entries aggrs -> is_Ok (resolver q k)) ->
  (forall a b k, ~ is_ValueError (Linear a b k)) ->
  (forall a b k, ~ is_ValueError (MultiheadAttention a b k)) ->
  is_ValueError (__init__ resolver aggrs aggrs_kwargs m mode_kwargs) <->
  init_rejects aggrs aggrs_kwargs m mode_kwargs.
Proof.
  intros Hres HL HM. destruct aggrs as [items|items|type_repr].
  - apply init_items_ValueError; assumption.
  - apply (init_items_ValueError resolver items); assumption.
  - simpl. split; [auto | intros _; eexists; reflexivity].
Qed.

Lemma Forall2_zip_resolved {Q K A} (f : Q -> K -> result A) items ks resolved :
  length items = length ks ->
  Forall2 (fun p a => (let '(q, k) := p in f q k) = Ok a) (zip items ks) resolved ->
  Forall2 (fun q a => exists k, f q k = Ok a) items resolved.
Proof.
  revert ks resolved.
  induction items as [|q items IH]; intros [|k ks] resolved Hlen HF;
    simpl in *; try discriminate.
  - inversion HF. constructor.
  - inversion HF as [|? a ? resolved' Ea HF']; subst.
    constructor; [eauto | apply (IH ks); [lia | exact HF']].
Qed.

(** X2.  An instance that [__init__] returns holds one aggregator per entry of
    [aggrs], each the resolver's result for that entry, in order, and the
    mode it was given. *)
Theorem init_Ok_aggrs resolver (aggrs : aggrs_arg)
    (aggrs_kwargs : option (list kwargs)) (m : option string)
    (mode_kwargs : option kwargs) (self : MultiAggregation) :
  __init__ resolver aggrs aggrs_kwargs m mode_kwargs = Ok self ->
  length (Multi.aggrs self) = length (entries aggrs)
  /\ Forall2 (fun q a => exists k, resolver q k = Ok a) (entries aggrs) (Multi.aggrs self)
  /\ mode self = m.
Proof.
  intros E.
  assert (exists items, entries aggrs = items
            /\ __init__ resolver (AggrsList items) aggrs_kwargs m mode_kwargs = Ok self)
    as (items & -> & E').
  { destruct aggrs as [items|items|type_repr]; [eauto | eauto | discriminate]. }
  clear E. unfold __init__ in E'.
  case_bool_decide; [discriminate|].
  apply bind_Ok in E' as (ks & Eks & E').
  apply bind_Ok in E' as (resolved & Er & E').
  apply bind_Ok in E' as ([[l hs] at'] & _ & [= <-]). simpl.
  assert (length items = length ks) as Hlen.
  { destruct aggrs_kwargs as [ks'|].
    - case_bool_decide as Hk; [discriminate|]. injection Eks as <-.
      destruct (decide (length items = length ks')); [assumption | contradiction].
    - injection Eks as <-. rewrite length_replicate. reflexivity. }
  apply result_map_Ok in Er.
  pose proof (Forall2_zip_resolved resolver items ks resolved Hlen Er) as HF.
  split; [symmetry; exact (Forall2_length _ _ _ HF) | split; [exact HF | reflexivity]].
Qed.

(** C8.  Two aggregators, the mode ['proj'] and [mode_kwargs] with
    [in_channels = 0] and no [out_channels]: the arguments are among those
    the message of the error describes ([out_channels] is not specified),
    yet [__init__] raises none of its errors; it resolves the aggregators
    and calls [Linear(0, None)]. *)
Theorem init_zero_in_channels resolver (q1 q2 : aggr_query) :
  let mode_kwargs : kwargs := {["in_channels" := PyInt 0]} in
  init_rejects_as_worded (AggrsList [q1; q2]) None (Some "proj") (Some mode_kwargs)
  /\ ~ init_rejects (AggrsList [q1; q2]) None (Some "proj") (Some mode_kwargs)
  /\ __init__ resolver (AggrsList [q1; q2]) None (Some "proj") (Some mode_kwargs)
     = (a1 ← resolver q1 ∅;
        a2 ← resolver q2 ∅;
        l ← Linear (PyInt 0) PyNone ∅;
        Ok {| aggrs := [a1; a2]; mode := Some "proj"; lin := Some l;
              lin_heads := None; multihead_attn := None; dense_combine := None |}).
Proof.
  intros mode_kwargs.
  assert (channels_in mode_kwargs = PyInt 0) as Ein by reflexivity.
  assert (channels_out mode_kwargs = PyNone) as Eout by reflexivity.
  split; [| split].
  - simpl. right. right. split; [left; reflexivity | right; right; exact Eout].
  - simpl. rewrite Ein. intros [[=] | [(ks & [=] & _) | [_ [[=] | [[=] | [[=] _]]]]]].
  - unfold __init__. simpl.
    destruct (resolver q1 ∅) as [a1|e]; [| reflexivity]. simpl.
    destruct (resolver q2 ∅) as [a2|e]; [| reflexivity]. simpl.
    unfold init_mode, dict_pop. simpl.
    change (mode_kwargs !! "in_channels") with (Some (PyInt 0)).
    simpl.
    replace (delete "in_channels" mode_kwargs !! "out_channels") with (@None pyval)
      by reflexivity.
    simpl.
    replace (delete "out_channels" (delete "in_channels" mode_kwargs)) with (∅ : kwargs)
      by (apply map_eq; intros i; reflexivity).
    change (0 + 0 + 0)%Z with 0%Z.
    destruct (Linear (PyInt 0) PyNone ∅); reflexivity.
Qed.

(** X4.  An instance that [__init__] built with a mode that is [None] or
    not one of the combine modes has none of the modules that [combine]
    looks for: [combine] raises the [ValueError] "Combine mode ... is not
    supported". *)
Theorem combine_unsupported_mode resolver (aggrs : aggrs_arg)
    (aggrs_kwargs : option (list kwargs)) (m : option string)
    (mode_kwargs : option kwargs) (self : MultiAggregation) (inputs : list Tensor) :
  __init__ resolver aggrs aggrs_kwargs m mode_kwargs = Ok self ->
  (forall name, m = Some name -> name ∉ combine_modes) ->
  run (combine self inputs)
  = (Raise (ValueError (msg_not_supported m)), [Call_combine inputs]).
Proof.
  intros E Hm.
  assert (forall name, name ∈ combine_modes -> mode_is m name = false) as Hno.
  { intros name Hin. apply bool_decide_eq_false_2. intros ->. exact (Hm _ eq_refl Hin). }
  assert (exists items,
            __init__ resolver (AggrsList items) aggrs_kwargs m mode_kwargs = Ok self)
    as (items & E').
  { destruct aggrs as [items|items|type_repr]; [eauto | eauto | discriminate]. }
  clear E. unfold __init__ in E'.
  case_bool_decide; [discriminate|].
  apply bind_Ok in E' as (ks & _ & E').
  apply bind_Ok in E' as (resolved & _ & E').
  unfold init_mode in E'.
  rewrite (Hno "proj"), (Hno "attn") in E' by (unfold combine_modes; set_solver).
  simpl in E'. injection E' as <-.
  unfold run, combine, mbind, traced_mbind, traced_bind, emit, lift. simpl.
  rewrite (Hno "proj"), (Hno "cat") by (unfold combine_modes; set_solver). simpl.
  destruct m as [name|]; [| reflexivity].
  rewrite bool_decide_eq_false_2; [reflexivity |].
  intros Hd. apply (Hm name eq_refl). unfold combine_modes.
  apply elem_of_app. right. exact Hd.
Qed.

(** *** Instances that [__init__] built *)

Lemma init_mode_Ok n m (mode_kwargs : kwargs) l hs at' :
  init_mode n m mode_kwargs = Ok (l, hs, at') ->
  let ic := channels_per_aggr n (channels_in mode_kwargs) in
  let oc := channels_out mode_kwargs in
  (~ needs_channels m /\ l = None /\ hs = None /\ at' = None)
  \/ (m = Some "proj" /\ n <> 1 /\ hs = None /\ at' = None
      /\ exists total lm, l = Some lm /\ py_sum ic = Ok total
           /\ Linear total oc (delete "out_channels" (delete "in_channels" mode_kwargs))
              = Ok lm)
  \/ (m = Some "attn" /\ n <> 1 /\ l = None
      /\ exists cs heads attn, hs = Some heads /\ at' = Some attn
           /\ py_iter ic = Ok cs
           /\ Forall2 (fun c h => Linear c oc ∅ = Ok h) cs heads).
Proof.
  unfold init_mode, channels_per_aggr, channels_in, channels_out, dict_pop.
  rewrite lookup_delete_ne by done.
  destruct (mode_is m "proj") eqn:Ep; [| destruct (mode_is m "attn") eqn:Ea]; simpl.
  - apply mode_is_true in Ep. subst m.
    assert (mode_is (Some "proj") "attn" = false) as -> by reflexivity.
    case_bool_decide as Hn; [discriminate |].
    destruct (is_None _); [discriminate |].
    intros E. apply bind_Ok in E as (lin & El & [= <- <- <-]).
    apply bind_Ok in El as (total & Et & El).
    destruct (Linear total _ _) as [lm|e] eqn:ELin; [| discriminate].
    injection El as <-. right. left. eauto 12.
  - apply mode_is_true in Ea. subst m.
    case_bool_decide as Hn; [discriminate |].
    destruct (is_None _); [discriminate |].
    simpl. intros E.
    apply bind_Ok in E as (cs & Ecs & E).
    apply bind_Ok in E as (heads & Eh & E).
    apply bind_Ok in E as (attn & _ & [= <- <- <-]).
    apply result_map_Ok in Eh. right. right. eauto 12.
  - intros [= <- <- <-]. left. split; [| auto].
    intros [Hm | Hm]; apply mode_is_true in Hm; congruence.
Qed.

Lemma init_Ok resolver (aggrs : aggrs_arg) (aggrs_kwargs : option (list kwargs))
    (m : option string) (mode_kwargs : option kwargs) (self : MultiAggregation) :
  __init__ resolver aggrs aggrs_kwargs m mode_kwargs = Ok self ->
  exists ks resolved l hs at',
    entries aggrs <> []
    /\ length ks = length (entries aggrs)
    /\ (forall given, aggrs_kwargs = Some given -> ks = given)
    /\ result_map (fun '(aggr, aggr_kwargs) => resolver aggr aggr_kwargs)
         (zip (entries aggrs) ks) = Ok resolved
    /\ init_mode (length (entries aggrs)) m (default ∅ mode_kwargs) = Ok (l, hs, at')
    /\ self = {| aggrs := resolved; mode := m; lin := l; lin_heads := hs;
                 multihead_attn := at';
                 dense_combine :=
                   match m with
                   | Some m0 =>
                     if bool_decide (m0 ∈ dense_combine_modes) then Some m0 else None
                   | None => None
                   end |}.
Proof.
  intros E.
  assert (exists items, entries aggrs = items
            /\ __init__ resolver (AggrsList items) aggrs_kwargs m mode_kwargs = Ok self)
    as (items & -> & E').
  { destruct aggrs as [items|items|type_repr]; [eauto | eauto | discriminate]. }
  clear E. unfold __init__ in E'.
  case_bool_decide as Hn; [discriminate|].
  apply bind_Ok in E' as (ks & Eks & E').
  apply bind_Ok in E' as (resolved & Er & E').
  apply bind_Ok in E' as ([[l hs] at'] & Em & [= <-]).
  exists ks, resolved, l, hs, at'.
  split; [intros ->; apply Hn; reflexivity |].
  destruct aggrs_kwargs as [given|].
  - case_bool_decide as Hk; [discriminate |]. injection Eks as <-.
    split; [destruct (decide (length items = length given)); [auto | contradiction] |].
    split; [intros ? [= <-]; reflexivity | auto].
  - injection Eks as <-. rewrite length_replicate.
    split; [reflexivity | split; [intros ? [=] | auto]].
Qed.

(** X5.  The attributes of an instance that [__init__] built follow its
    mode: there is at least one aggregator, and at least two under ['proj']
    and ['attn']; [lin] is set exactly under ['proj'], [lin_heads] and
    [multihead_attn] exactly under ['attn'], and [dense_combine] exactly
    under the seven dense modes, where it is the function of that name. *)
Theorem init_attributes resolver (aggrs : aggrs_arg)
    (aggrs_kwargs : option (list kwargs)) (m : option string)
    (mode_kwargs : option kwargs) (self : MultiAggregation) :
  __init__ resolver aggrs aggrs_kwargs m mode_kwargs = Ok self ->
  1 <= length (Multi.aggrs self)
  /\ (needs_channels m -> 2 <= length (Multi.aggrs self))
  /\ (is_Some (lin self) <-> m = Some "proj")
  /\ (is_Some (lin_heads self) <-> m = Some "attn")
  /\ (is_Some (multihead_attn self) <-> m = Some "attn")
  /\ (forall name, dense_combine self = Some name <->
                   m = Some name /\ name ∈ dense_combine_modes).
Proof.
  intros E.
  destruct (init_Ok _ _ _ _ _ _ E) as (ks & resolved & l & hs & at' & Hne & Hks & _ & Er & Em & ->).
  simpl. pose proof (result_map_length _ _ _ Er) as Hlen.
  rewrite length_zip, Hks, Nat.min_id in Hlen.
  assert (1 <= length (entries aggrs)) as H1.
  { destruct (entries aggrs); [contradiction | simpl; lia]. }
  assert (forall name, match m with
                       | Some m0 =>
                         if bool_decide (m0 ∈ dense_combine_modes) then Some m0 else None
                       | None => None
                       end = Some name <-> m = Some name /\ name ∈ dense_combine_modes)
    as Hdense.
  { intros name. destruct m as [m0|]; [| split; [discriminate | intros [[=] _]]].
    case_bool_decide as Hd.
    - split; [intros [= <-]; auto | intros [[= <-] _]; reflexivity].
    - split; [discriminate | intros [[= <-] ?]; contradiction]. }
  apply init_mode_Ok in Em
    as [(Hm & -> & -> & ->)
       | [(-> & Hn & -> & -> & total & lm & -> & _)
         | (-> & Hn & -> & cs & heads & attn & -> & -> & _)]].
  - split; [lia |]. split; [intros ?; contradiction |].
    assert (forall A, is_Some (@None A) <-> False) as HN
      by (intros A; split; [intros [? [=]] | tauto]).
    rewrite !HN. unfold needs_channels in Hm.
    split; [tauto |]. split; [tauto |]. split; [tauto | exact Hdense].
  - split; [lia |]. split; [lia |].
    split; [split; eauto |].
    split; [split; [intros [? [=]] | discriminate] |].
    split; [split; [intros [? [=]] | discriminate] | exact Hdense].
  - split; [lia |]. split; [lia |].
    split; [split; [intros [? [=]] | discriminate] |].
    split; [split; eauto |].
    split; [split; eauto | exact Hdense].
Qed.

(** *** [forward], aggregator by aggregator *)

Ltac unfold_traced :=
  unfold mbind, traced_mbind, traced_bind, mret, traced_mret, traced_ret, emit, lift.

Lemma call_aggrs_all l outs x index ptr dim_size dim tr :
  Forall2 (fun a out => Aggregation_call a x index ptr dim_size dim = Ok out) l outs ->
  call_aggrs l x index ptr dim_size dim tr = (Ok outs, tr ++ (Call_aggr <$> l)).
Proof.
  intros HF. revert tr. induction HF as [|a out l outs Ea _ IH]; intros tr.
  - simpl. unfold_traced. rewrite app_nil_r. reflexivity.
  - cbn [call_aggrs]. unfold_traced. cbn. rewrite Ea, IH. cbn.
    rewrite <- app_assoc. reflexivity.
Qed.

Lemma call_aggrs_first_error pre a post outs e x index ptr dim_size dim tr :
  Forall2 (fun a out => Aggregation_call a x index ptr dim_size dim = Ok out) pre outs ->
  Aggregation_call a x index ptr dim_size dim = Raise e ->
  call_aggrs (pre ++ a :: post) x index ptr dim_size dim tr
  = (Raise e, tr ++ (Call_aggr <$> pre ++ [a])).
Proof.
  intros HF Ea. revert tr. induction HF as [|b out pre outs Eb _ IH]; intros tr.
  - cbn. unfold_traced. cbn. rewrite Ea. reflexivity.
  - cbn [app call_aggrs]. unfold_traced. cbn. rewrite Eb.
    unfold_traced. rewrite IH. cbn. rewrite <- app_assoc. reflexivity.
Qed.

(** X6.  [forward] calls the aggregators in the order of [self.aggrs] and
    stops at the first one that raises: the exception is that of [forward],
    the aggregators after it are not called, and neither is [combine]. *)
Theorem forward_first_error (self : MultiAggregation) (x : Tensor)
    (index ptr : option Tensor) (dim_size : option Z) (dim : Z)
    (pre post : list Aggregation) (a : Aggregation) (e : exn) :
  aggrs self = pre ++ a :: post ->
  Forall (fun b => is_Ok (Aggregation_call b x index ptr dim_size dim)) pre ->
  Aggregation_call a x index ptr dim_size dim = Raise e ->
  run (forward self x index ptr dim_size dim)
  = (Raise e, Call_aggr <$> pre ++ [a]).
Proof.
  intros Ha Hpre Ea.
  assert (exists outs,
            Forall2 (fun b out => Aggregation_call b x index ptr dim_size dim = Ok out)
                    pre outs) as [outs HF].
  { clear -Hpre. induction Hpre as [|b pre [out Eb] _ [outs IH]].
    - exists []. constructor.
    - exists (out :: outs). constructor; assumption. }
  unfold run, forward. rewrite Ha. unfold mbind, traced_mbind, traced_bind.
  rewrite (call_aggrs_first_error pre a post outs e _ _ _ _ _ [] HF Ea). reflexivity.
Qed.

(** X7.  When every aggregator returns, [forward] of an instance with two
    or more aggregators is [combine] applied to the outputs, in the order of
    [self.aggrs]; [combine] is called once, after the last aggregator. *)
Theorem forward_all_return (self : MultiAggregation) (x : Tensor)
    (index ptr : option Tensor) (dim_size : option Z) (dim : Z) (outs : list Tensor) :
  Forall2 (fun a out => Aggregation_call a x index ptr dim_size dim = Ok out)
          (aggrs self) outs ->
  2 <= length (aggrs self) ->
  run (forward self x index ptr dim_size dim)
  = ((run (combine self outs)).1, (Call_aggr <$> aggrs self) ++ [Call_combine outs]).
Proof.
  intros HF Hlen. unfold run, forward, mbind at 1, traced_mbind, traced_bind at 1.
  rewrite (call_aggrs_all _ _ _ _ _ _ _ [] HF). cbn.
  rewrite bool_decide_eq_true_2 by (rewrite <- (Forall2_length _ _ _ HF); lia).
  unfold combine. unfold_traced. cbn. reflexivity.
Qed.

(** X8.  What [combine] computes for an instance that [__init__] built,
    mode by mode: ['cat'] concatenates the inputs along the last dimension;
    ['proj'] applies the layer [lin] to that concatenation; a dense mode
    stacks the inputs along a new first dimension and reduces it with the
    function of that name, taking the values where it returns values and
    indices; ['attn'] applies head [i] to input [i], stacks the results,
    attends and takes the mean over the first dimension. *)
Theorem combine_of_built resolver (aggrs : aggrs_arg)
    (aggrs_kwargs : option (list kwargs)) (m : option string)
    (mode_kwargs : option kwargs) (self : MultiAggregation) (inputs : list Tensor) :
  __init__ resolver aggrs aggrs_kwargs m mode_kwargs = Ok self ->
  (m = Some "cat" ->
   run (combine self inputs) = (torch_cat inputs (-1), [Call_combine inputs]))
  /\ (m = Some "proj" ->
      exists l, lin self = Some l
        /\ run (combine self inputs)
           = (out ← torch_cat inputs (-1); Linear_call l out, [Call_combine inputs]))
  /\ (forall name, m = Some name -> name ∈ dense_combine_modes ->
      run (combine self inputs)
      = (stacked ← torch_stack inputs 0;
         out ← torch_dense name stacked 0;
         Ok (match out with inl t => t | inr (values, _) => values end),
         [Call_combine inputs]))
  /\ (m = Some "attn" ->
      exists heads attn, lin_heads self = Some heads /\ multihead_attn self = Some attn
        /\ run (combine self inputs)
           = (xs ← result_map (fun '(x, head) => Linear_call head x) (zip inputs heads);
              x ← torch_stack xs 0;
              '(attn_out, _) ← MultiheadAttention_call attn x x x;
              torch_mean attn_out 0,
              [Call_combine inputs])).
Proof.
  intros E.
  destruct (init_Ok _ _ _ _ _ _ E) as (ks & resolved & l & hs & at' & _ & _ & _ & _ & Em & ->).
  apply init_mode_Ok in Em
    as [(Hm & -> & -> & ->)
       | [(-> & Hn & -> & -> & total & lm & -> & _)
         | (-> & Hn & -> & cs & heads & attn & -> & -> & _)]].
  - unfold needs_channels in Hm.
    split; [| split; [| split]].
    + intros ->. unfold run, combine. unfold_traced. cbn.
      destruct (torch_cat inputs (-1)); reflexivity.
    + intros ->. exfalso. tauto.
    + intros name -> Hd. unfold run, combine. unfold_traced. cbn.
      assert (mode_is (Some name) "cat" = false) as ->.
      { apply bool_decide_eq_false_2. intros [= ->]. revert Hd.
        apply (bool_decide_unpack _). reflexivity. }
      assert (mode_is (Some name) "proj" = false) as ->.
      { apply bool_decide_eq_false_2. intros [= ->]. tauto. }
      cbn. rewrite bool_decide_eq_true_2 by exact Hd. reflexivity.
    + intros ->. exfalso. tauto.
  - split; [discriminate | split; [| split; [| discriminate]]].
    + intros _. exists lm. split; [reflexivity |].
      unfold run, combine. unfold_traced. cbn. reflexivity.
    + intros name [= <-] Hd. exfalso. revert Hd.
      apply (bool_decide_unpack _). reflexivity.
  - split; [discriminate | split; [discriminate | split]].
    + intros name [= <-] Hd. exfalso. revert Hd.
      apply (bool_decide_unpack _). reflexivity.
    + intros _. exists heads, attn. split; [reflexivity | split; [reflexivity |]].
      unfold run, combine. unfold_traced. cbn. reflexivity.
Qed.

(** X9.  Under the mode ['attn'], [__init__] builds one head per entry of
    [in_channels], head [i] being [Linear(in_channels[i], out_channels)],
    and sets no [lin]: an integer [in_channels] gives one head per
    aggregator, a tuple gives as many heads as it has entries, whatever the
    number of aggregators is. *)
Theorem attn_heads resolver (aggrs : aggrs_arg) (aggrs_kwargs : option (list kwargs))
    (mode_kwargs : option kwargs) (self : MultiAggregation) :
  __init__ resolver aggrs aggrs_kwargs (Some "attn") mode_kwargs = Ok self ->
  let d := default ∅ mode_kwargs in
  exists heads,
    lin_heads self = Some heads /\ lin self = None
    /\ (isinstance_int (channels_in d) = true ->
        length heads = length (Multi.aggrs self)
        /\ Forall (fun h => Linear (channels_in d) (channels_out d) ∅ = Ok h) heads)
    /\ (forall cs, channels_in d = PyTuple cs ->
        Forall2 (fun c h => Linear c (channels_out d) ∅ = Ok h) cs heads).
Proof.
  intros E d.
  destruct (init_Ok _ _ _ _ _ _ E) as (ks & resolved & l & hs & at' & _ & Hks & _ & Er & Em & ->).
  pose proof (result_map_length _ _ _ Er) as Hlen.
  rewrite length_zip, Hks, Nat.min_id in Hlen.
  apply init_mode_Ok in Em
    as [(Hm & _) | [([=] & _) | (_ & Hn & -> & cs & heads & attn & -> & -> & Ecs & HF)]].
  { exfalso. apply Hm. right. reflexivity. }
  fold d in Ecs, HF. exists heads. simpl.
  split; [reflexivity | split; [reflexivity | split]].
  - intros Hint. unfold channels_per_aggr in Ecs. rewrite Hint in Ecs.
    injection Ecs as <-. split.
    + rewrite <- (Forall2_length _ _ _ HF), length_replicate. symmetry. exact Hlen.
    + clear -HF. remember (replicate _ _) as cs eqn:Hcs.
      assert (Forall (fun c => c = channels_in d) cs) as Hall.
      { subst cs. apply Forall_forall. intros c Hc.
        apply elem_of_replicate in Hc as [-> _]. reflexivity. }
      clear Hcs. induction HF as [|c h cs heads Eh _ IH]; constructor.
      * apply Forall_inv in Hall. subst c. exact Eh.
      * apply IH. exact (Forall_inv_tail Hall).
  - intros cs' Ecs'. unfold channels_per_aggr in Ecs. rewrite Ecs' in Ecs.
    injection Ecs as <-. exact HF.
Qed.

(** X10.  The default mode end to end: for an instance built with the mode
    ['cat'] from two or more entries, when every aggregator returns,
    [forward] returns the concatenation along the last dimension of the
    outputs, in the order of [aggrs]; each aggregator is called once and
    [combine] once. *)
Theorem forward_cat resolver (aggrs : aggrs_arg) (aggrs_kwargs : option (list kwargs))
    (mode_kwargs : option kwargs) (self : MultiAggregation) (x : Tensor)
    (index ptr : option Tensor) (dim_size : option Z) (dim : Z) (outs : list Tensor) :
  __init__ resolver aggrs aggrs_kwargs (Some "cat") mode_kwargs = Ok self ->
  2 <= length (entries aggrs) ->
  Forall2 (fun a out => Aggregation_call a x index ptr dim_size dim = Ok out)
          (Multi.aggrs self) outs ->
  run (forward self x index ptr dim_size dim)
  = (torch_cat outs (-1), (Call_aggr <$> Multi.aggrs self) ++ [Call_combine outs]).
Proof.
  intros E Hn HF.
  destruct (init_Ok _ _ _ _ _ _ E) as (ks & resolved & l & hs & at' & _ & Hks & _ & Er & Em & ->).
  pose proof (result_map_length _ _ _ Er) as Hlen.
  rewrite length_zip, Hks, Nat.min_id in Hlen.
  apply init_mode_Ok in Em
    as [(_ & -> & -> & ->) | [([=] & _) | ([=] & _)]].
  simpl in HF. unfold run, forward, mbind at 1, traced_mbind, traced_bind at 1. simpl.
  rewrite (call_aggrs_all _ _ _ _ _ _ _ [] HF). cbn.
  rewrite bool_decide_eq_true_2 by (rewrite <- (Forall2_length _ _ _ HF); lia).
  unfold combine. unfold_traced. cbn.
  destruct (torch_cat outs (-1)); reflexivity.
Qed.

(** X11.  [reset_parameters] of an instance that [__init__] built resets
    every aggregator once, in order, and then exactly the layers that
    [combine] applies under the mode: none for the modes other than ['proj']
    and ['attn'], [lin] under ['proj'], and the heads followed by the
    attention under ['attn']. *)
Theorem reset_of_built resolver (aggrs : aggrs_arg) (aggrs_kwargs : option (list kwargs))
    (m : option string) (mode_kwargs : option kwargs) (self : MultiAggregation) :
  __init__ resolver aggrs aggrs_kwargs m mode_kwargs = Ok self ->
  (~ needs_channels m -> reset_parameters self = Reset_aggr <$> Multi.aggrs self)
  /\ (m = Some "proj" ->
      exists l, lin self = Some l
        /\ reset_parameters self = (Reset_aggr <$> Multi.aggrs self) ++ [Reset_lin l])
  /\ (m = Some "attn" ->
      exists heads attn, lin_heads self = Some heads /\ multihead_attn self = Some attn
        /\ reset_parameters self
           = (Reset_aggr <$> Multi.aggrs self) ++ (Reset_lin <$> heads) ++ [Reset_attn attn]).
Proof.
  intros E.
  destruct (init_Ok _ _ _ _ _ _ E) as (ks & resolved & l & hs & at' & _ & _ & _ & _ & Em & ->).
  apply init_mode_Ok in Em
    as [(Hm & -> & -> & ->)
       | [(-> & Hn & -> & -> & total & lm & -> & _)
         | (-> & Hn & -> & cs & heads & attn & -> & -> & _)]];
    unfold reset_parameters; simpl.
  - unfold needs_channels in Hm.
    split; [intros _; rewrite app_nil_r; reflexivity |].
    split; intros ->; exfalso; tauto.
  - split; [intros Hm; exfalso; apply Hm; left; reflexivity |].
    split; [intros _; eauto | discriminate].
  - split; [intros Hm; exfalso; apply Hm; right; reflexivity |].
    split; [discriminate | intros _; eauto].
Qed.

(** *** The dictionary of the caller *)

Lemma init_mode_shared_result n m (d : kwargs) :
  (init_mode_shared n m d).1 = init_mode n m d.
Proof.
  unfold init_mode_shared, init_mode, dict_pop.
  destruct (mode_is m "proj" || mode_is m "attn"); [| reflexivity].
  case_bool_decide; [reflexivity |].
  destruct (is_None _); [reflexivity |].
  destruct (if mode_is m "proj" then _ else _) as [l|e]; [| reflexivity]. simpl.
  destruct (mode_is m "attn"); [| reflexivity].
  destruct (py_iter _) as [cs|e]; [| reflexivity]. simpl.
  destruct (result_map _ cs) as [heads|e]; reflexivity.
Qed.

Lemma init_shared_result resolver aggrs aggrs_kwargs m (d : kwargs) :
  (init_shared resolver aggrs aggrs_kwargs m d).1
  = __init__ resolver aggrs aggrs_kwargs m (Some d).
Proof.
  unfold init_shared, __init__.
  destruct aggrs as [items|items|type_repr]; [| | reflexivity].
  all: case_bool_decide; [reflexivity |].
  all: destruct (match aggrs_kwargs with Some _ => _ | None => _ end) as [ks|e];
    [| reflexivity]; simpl.
  all: destruct (result_map _ (zip items ks)) as [resolved|e]; [| reflexivity]; simpl.
  all: rewrite <- init_mode_shared_result.
  all: destruct (init_mode_shared (length items) m d) as [mods d']; reflexivity.
Qed.

Lemma pops_lookup (d : kwargs) (attn : bool) (key : string) :
  ((if attn then delete "num_heads" else id)
     (delete "out_channels" (delete "in_channels" d))) !! key
  = if bool_decide (key = "in_channels" \/ key = "out_channels"
                    \/ (attn = true /\ key = "num_heads"))
    then None else d !! key.
Proof.
  destruct attn; simpl; rewrite !lookup_delete;
    repeat case_decide; subst; case_bool_decide; try reflexivity;
    try (exfalso; intuition congruence).
Qed.

Lemma if_bool_decide_ext {A} (P Q : Prop) `{Decision P} `{Decision Q} (a b : A) :
  (P <-> Q) -> (if bool_decide P then a else b) = (if bool_decide Q then a else b).
Proof. intros HPQ. rewrite (bool_decide_ext P Q HPQ). reflexivity. Qed.

Lemma init_mode_shared_pops n m (d d' : kwargs) mods :
  needs_channels m ->
  init_mode_shared n m d = (Ok mods, d') ->
  n <> 1
  /\ d' = (if mode_is m "attn" then delete "num_heads" else id)
            (delete "out_channels" (delete "in_channels" d)).
Proof.
  intros Hm. unfold init_mode_shared, dict_pop.
  assert (mode_is m "proj" || mode_is m "attn" = true) as ->.
  { apply orb_true_iff. destruct Hm as [->| ->]; [left | right]; reflexivity. }
  case_bool_decide as Hn; [discriminate |].
  destruct (is_None _); [discriminate |].
  destruct (if mode_is m "proj" then _ else _) as [l|e]; [| discriminate].
  destruct (mode_is m "attn").
  - destruct (_ ≫= _) as [heads|e]; [| discriminate].
    intros [= _ <-]. auto.
  - intros [= _ <-]. auto.
Qed.

(** X12.  [__init__] pops its keys from the dictionary it is given.  Under a
    mode other than ['proj'] and ['attn'] the caller's [mode_kwargs] is left
    as it was.  Under these two modes, after a call that returned an
    instance, the dictionary holds neither [in_channels] nor [out_channels]
    (nor [num_heads] under ['attn']) while its other keys are untouched, and
    a second call with the same arguments and this same dictionary raises
    the [ValueError] "must have `in_channels` and `out_channels`
    specified". *)
Theorem init_pops_mode_kwargs resolver (aggrs : aggrs_arg)
    (aggrs_kwargs : option (list kwargs)) (m : option string) (d : kwargs) :
  (init_shared resolver aggrs aggrs_kwargs m d).1
  = __init__ resolver aggrs aggrs_kwargs m (Some d)
  /\ (~ needs_channels m -> (init_shared resolver aggrs aggrs_kwargs m d).2 = d)
  /\ (forall name self d',
        m = Some name -> needs_channels m ->
        init_shared resolver aggrs aggrs_kwargs m d = (Ok self, d') ->
        d' !! "in_channels" = None /\ d' !! "out_channels" = None
        /\ (name = "attn" -> d' !! "num_heads" = None)
        /\ (forall key, key ∉ ["in_channels"; "out_channels"; "num_heads"] ->
                        d' !! key = d !! key)
        /\ __init__ resolver aggrs aggrs_kwargs m (Some d')
           = Raise (ValueError (msg_channels name))).
Proof.
  split; [apply init_shared_result | split].
  - intros Hm. unfold init_shared.
    assert (forall n, init_mode_shared n m d = (Ok (None, None, None), d)) as Hmode.
    { intros n. unfold init_mode_shared.
      destruct (mode_is m "proj") eqn:Ep;
        [apply mode_is_true in Ep; exfalso; apply Hm; left; exact Ep |].
      destruct (mode_is m "attn") eqn:Ea;
        [apply mode_is_true in Ea; exfalso; apply Hm; right; exact Ea |].
      reflexivity. }
    destruct aggrs as [items|items|type_repr]; [| | reflexivity].
    all: case_bool_decide; [reflexivity |].
    all: destruct (_ ≫= _) as [resolved|e]; [| reflexivity].
    all: rewrite Hmode; reflexivity.
  - intros name self d' -> Hm E.
    assert (exists items ks resolved mods,
              entries aggrs = items /\ items <> []
              /\ __init__ resolver aggrs aggrs_kwargs (Some name) (Some d')
                 = __init__ resolver (AggrsList items) aggrs_kwargs (Some name) (Some d')
              /\ match aggrs_kwargs with
                 | None => Ok (replicate (length items) (∅ : kwargs))
                 | Some ks =>
                   if bool_decide (length items ≠ length ks)
                   then Raise (ValueError (msg_kwargs_length (length ks) (length items)))
                   else Ok ks
                 end = Ok ks
              /\ result_map (fun '(aggr, aggr_kwargs) => resolver aggr aggr_kwargs)
                   (zip items ks) = Ok resolved
              /\ init_mode_shared (length items) (Some name) d = (Ok mods, d'))
      as (items & ks & resolved & mods & _ & Hne & Esame & Eks & Er & Emode).
    { unfold init_shared in E.
      destruct aggrs as [items|items|type_repr]; [| | discriminate].
      all: case_bool_decide as Hn; [discriminate |].
      all: destruct (match aggrs_kwargs with Some _ => _ | None => _ end) as [ks|e] eqn:Eks;
        [| discriminate]; simpl in E.
      all: destruct (result_map _ (zip items ks)) as [resolved|e] eqn:Er;
        [| discriminate].
      all: destruct (init_mode_shared (length items) (Some name) d) as [[mods|e] d'']
        eqn:Emode; [| discriminate].
      all: assert (d'' = d') as -> by (destruct mods as [[? ?] ?]; congruence).
      all: exists items, ks, resolved, mods.
      all: repeat split; try assumption; try reflexivity.
      all: intros ->; apply Hn; reflexivity. }
    destruct (init_mode_shared_pops _ _ _ _ _ Hm Emode) as [Hn ->].
    assert (forall key,
      ((if mode_is (Some name) "attn" then delete "num_heads" else id)
         (delete "out_channels" (delete "in_channels" d)) : kwargs) !! key
      = if bool_decide (key = "in_channels" \/ key = "out_channels"
                        \/ (name = "attn" /\ key = "num_heads"))
        then None else d !! key) as Hlook.
    { intros key. rewrite pops_lookup.
      apply if_bool_decide_ext. rewrite mode_is_true.
      split; intros [?|[?|[? ?]]]; auto; right; right; split; congruence. }
    split; [rewrite Hlook; rewrite bool_decide_eq_true_2 by tauto; reflexivity |].
    split; [rewrite Hlook; rewrite bool_decide_eq_true_2 by tauto; reflexivity |].
    split; [intros ->; rewrite Hlook; rewrite bool_decide_eq_true_2 by tauto; reflexivity |].
    split.
    { intros key Hkey. rewrite Hlook. rewrite bool_decide_eq_false_2; [reflexivity |].
      intros [-> | [-> | [_ ->]]]; apply Hkey; set_solver. }
    rewrite Esame. unfold __init__.
    rewrite bool_decide_eq_false_2
      by (intros Hz; apply Hne, length_zero_iff_nil, Hz).
    rewrite Eks. simpl. rewrite Er. simpl.
    unfold init_mode, dict_pop.
    assert (mode_is (Some name) "proj" || mode_is (Some name) "attn" = true) as ->.
    { apply orb_true_iff. destruct Hm as [->| ->]; [left | right]; reflexivity. }
    rewrite (bool_decide_eq_false_2 (length items = 1) Hn).
    rewrite (Hlook "in_channels").
    rewrite (bool_decide_eq_true_2 _ (or_introl eq_refl)). reflexivity.
Qed.

End multi_facts.



(** ** glob.py *)

Section glob_facts.
Context {elt : Type} `{Glob.Scalar elt} `{Glob.Scatter elt}.
Import Glob.

Lemma product_app (a b : list nat) : product (a ++ b) = product a * product b.
Proof.
  unfold product. induction a as [|n a IH]; simpl; [lia |].
  rewrite IH. lia.
Qed.

(** Dimension [-2] of a tensor with at least two dimensions is the last but
    one; a tensor with fewer dimensions has none. *)
Lemma wrap_dim_last_but_one (ndim : nat) :
  2 <= ndim -> wrap_dim (-2) ndim = Ok (ndim - 2).
Proof.
  intros Hn. unfold wrap_dim.
  rewrite bool_decide_eq_true_2 by lia.
  rewrite bool_decide_eq_true_2 by lia.
  f_equal. lia.
Qed.

Lemma wrap_dim_out_of_range (ndim : nat) :
  ndim < 2 -> wrap_dim (-2) ndim = Raise (IndexError "Dimension out of range").
Proof.
  intros Hn. unfold wrap_dim. rewrite bool_decide_eq_false_2 by lia. reflexivity.
Qed.

Lemma reduce_dim_shape {out} (f : list elt -> out) (x : Tensor elt) pre n post keepdim :
  shape x = pre ++ n :: post ->
  shape (reduce_dim f x (length pre) keepdim)
  = pre ++ (if keepdim then [1] else []) ++ post.
Proof.
  intros Ex. unfold reduce_dim. simpl. rewrite Ex.
  rewrite take_app_length.
  rewrite (drop_app_length' pre [n] post) || idtac.
  replace (drop (S (length pre)) (pre ++ n :: post)) with post; [reflexivity |].
  change (n :: post) with ([n] ++ post). rewrite app_assoc.
  rewrite drop_app_length'; [reflexivity |]. rewrite length_app. simpl. lia.
Qed.

Lemma reduce_dim_well_formed {out} (f : list elt -> out) (x : Tensor elt) d keepdim :
  well_formed (reduce_dim f x d keepdim).
Proof.
  unfold well_formed, reduce_dim. simpl.
  rewrite length_fmap, length_seq, !product_app.
  destruct keepdim; simpl; lia.
Qed.

Lemma size_at_middle (x : Tensor elt) pre n post :
  shape x = pre ++ n :: post -> size_at x (length pre) = n.
Proof.
  intros Ex. unfold size_at. rewrite Ex.
  rewrite lookup_app_r by lia. rewrite Nat.sub_diag. reflexivity.
Qed.

(** The three reducers on a tensor whose last two sizes are [N] and [F]. *)
Lemma pool_without_batch_shape (r : reducer) (x : Tensor elt) size pre N F :
  shape x = pre ++ [N; F] ->
  (r = Max_pool -> N <> 0) ->
  exists t, global_pool r x None size = Ok t
    /\ shape t = pre ++ (if bool_decide (dim x = 2) then [1] else []) ++ [F]
    /\ well_formed t.
Proof.
  intros Ex HN.
  assert (dim x = length pre + 2) as Edim.
  { unfold dim. rewrite Ex, length_app. reflexivity. }
  assert (wrap_dim (-2) (dim x) = Ok (length pre)) as Ew.
  { rewrite wrap_dim_last_but_one by lia. f_equal. lia. }
  destruct r; simpl.
  - unfold global_add_pool, Tensor_sum. rewrite Ew. simpl.
    eexists. split; [reflexivity |].
    split; [apply (reduce_dim_shape _ _ _ N [F] _ Ex) | apply reduce_dim_well_formed].
  - unfold global_mean_pool, Tensor_mean. rewrite Ew. simpl.
    eexists. split; [reflexivity |].
    split; [apply (reduce_dim_shape _ _ _ N [F] _ Ex) | apply reduce_dim_well_formed].
  - unfold global_max_pool, Tensor_max. rewrite Ew. simpl.
    rewrite (size_at_middle x pre N [F] Ex).
    rewrite bool_decide_eq_false_2 by (apply HN; reflexivity). simpl.
    eexists. split; [reflexivity |].
    split; [apply (reduce_dim_shape _ _ _ N [F] _ Ex) | apply reduce_dim_well_formed].
Qed.

(** C10, amended.  Without [batch], each of the three reducers reduces [x]
    over dimension [-2], and [size] plays no part: a matrix of shape
    [(N, F)] gives a tensor of shape [(1, F)]; a tensor of three or more
    dimensions, of shape [(..., N, F)], gives one of shape [(..., F)];
    for [global_max_pool] both need [N > 0], as the maximum over a
    dimension of size 0 raises; a tensor of fewer than two dimensions has
    no dimension [-2], and the call raises [IndexError]. *)
Theorem pool_without_batch (r : reducer) (x : Tensor elt) (size : option Z) :
  (forall N F, shape x = [N; F] -> (r = Max_pool -> N <> 0) ->
     exists t, global_pool r x None size = Ok t
       /\ shape t = [1; F] /\ well_formed t)
  /\ (forall pre N F, pre <> [] -> shape x = pre ++ [N; F] ->
        (r = Max_pool -> N <> 0) ->
        exists t, global_pool r x None size = Ok t
          /\ shape t = pre ++ [F] /\ well_formed t)
  /\ (dim x < 2 -> exists msg, global_pool r x None size = Raise (IndexError msg))
  /\ (forall pre F, r = Max_pool -> shape x = pre ++ [0; F] ->
        exists msg, global_pool r x None size = Raise (IndexError msg)).
Proof.
  split; [| split; [| split]].
  - intros N F Ex HN.
    destruct (pool_without_batch_shape r x size [] N F Ex HN) as (t & Et & Es & Hwf).
    exists t. split; [exact Et | split; [| exact Hwf]].
    rewrite Es. unfold dim. rewrite Ex. reflexivity.
  - intros pre N F Hpre Ex HN.
    destruct (pool_without_batch_shape r x size pre N F Ex HN) as (t & Et & Es & Hwf).
    exists t. split; [exact Et | split; [| exact Hwf]].
    rewrite Es. rewrite bool_decide_eq_false_2; [reflexivity |].
    unfold dim. rewrite Ex, length_app. simpl.
    destruct pre; [contradiction | simpl; lia].
  - intros Hdim. exists "Dimension out of range".
    destruct r; simpl;
      unfold global_add_pool, global_mean_pool, global_max_pool,
        Tensor_sum, Tensor_mean, Tensor_max;
      rewrite (wrap_dim_out_of_range _ Hdim); reflexivity.
  - intros pre F -> Ex. eexists. simpl.
    unfold global_max_pool, Tensor_max.
    rewrite wrap_dim_last_but_one by (unfold dim; rewrite Ex, length_app; simpl; lia).
    simpl.
    replace (dim x - 2) with (length pre)
      by (unfold dim; rewrite Ex, length_app; simpl; lia).
    rewrite (size_at_middle x pre 0 [F] Ex). reflexivity.
Qed.

Lemma foldl_max_spec (l : list Z) (v : Z) :
  (foldl Z.max v l = v \/ foldl Z.max v l ∈ l)
  /\ (v <= foldl Z.max v l)%Z
  /\ Forall (fun i => (i <= foldl Z.max v l)%Z) l.
Proof.
  revert v. induction l as [|u l IH]; intros v; simpl.
  - split; [left; reflexivity | split; [lia | constructor]].
  - destruct (IH (Z.max v u)) as (Hin & Hle & Hall).
    split; [| split; [lia | constructor; [lia | exact Hall]]].
    destruct Hin as [E | Hin]; [| right; right; exact Hin].
    rewrite E. destruct (Z.max_spec v u) as [[_ ->] | [_ ->]].
    + right. left.
    + left. reflexivity.
Qed.

(** X3.  With a batch vector, each reducer is one call of [scatter] over
    dimension [-2], with the reduction of its name and with [dim_size] the
    argument [size]; without [size], [dim_size] is one more than the largest
    entry of [batch], so that every entry is below it, and a batch vector
    without entries raises. *)
Theorem pool_with_batch (r : reducer) (x : Tensor elt) (batch : Tensor Z)
    (size : option Z) :
  global_pool r x (Some batch) size
  = (s ← batch_size batch size; scatter x batch (-2)%Z (Some s) (reduce_name r))
  /\ (forall s, batch_size batch (Some s) = Ok s)
  /\ (data batch <> [] ->
      exists s, batch_size batch None = Ok s
        /\ (s - 1)%Z ∈ data batch /\ Forall (fun i => (i < s)%Z) (data batch))
  /\ (data batch = [] ->
      exists msg, global_pool r x (Some batch) None = Raise (RuntimeError msg)).
Proof.
  split; [destruct r; reflexivity | split; [reflexivity | split]].
  - intros Hne. unfold batch_size, Tensor_max_item.
    destruct (data batch) as [|v l]; [contradiction |]. simpl.
    destruct (foldl_max_spec l v) as (Hin & Hle & Hall).
    eexists. split; [reflexivity |].
    replace (foldl Z.max v l + 1 - 1)%Z with (foldl Z.max v l) by lia.
    split.
    + destruct Hin as [-> | Hin]; [left | right; exact Hin].
    + constructor; [lia |]. eapply Forall_impl; [exact Hall |]. simpl. intros; lia.
  - intros He. eexists.
    destruct r; simpl;
      unfold global_add_pool, global_mean_pool, global_max_pool, batch_size,
        Tensor_max_item; rewrite He; reflexivity.
Qed.

(** *** The entries of the output *)

Lemma omap_lookups {A B} (g : A -> option B) (l : list A) :
  Forall (fun a => is_Some (g a)) l ->
  length (omap g l) = length l
  /\ forall n, omap g l !! n = l !! n ≫= g.
Proof.
  induction 1 as [|a l [b Eb] _ [IHlen IH]]; simpl.
  - split; [reflexivity | intros n; reflexivity].
  - rewrite Eb. simpl. split; [f_equal; exact IHlen |].
    intros [|n]; simpl; [symmetry; exact Eb | apply IH].
Qed.

(** The lane of a well-formed tensor of shape [(..., N, F)] at position [o]
    of the leading dimensions and feature [f]: its [N] entries
    [x[o, 0, f], ..., x[o, N-1, f]]. *)
Lemma lane_entries (x : Tensor elt) pre N F o f :
  shape x = pre ++ [N; F] -> well_formed x -> o < product pre -> f < F ->
  length (lane x (length pre) (product [F]) o f) = N
  /\ forall n, n < N ->
       lane x (length pre) (product [F]) o f !! n = data x !! ((o * N + n) * F + f).
Proof.
  intros Ex Hwf Ho Hf. unfold lane.
  rewrite (size_at_middle x pre N [F] Ex).
  assert (product [F] = F) as -> by (unfold product; simpl; lia).
  assert (length (data x) = product pre * (N * F)) as Hlen.
  { rewrite Hwf, Ex, product_app. unfold product at 2. simpl. lia. }
  destruct (omap_lookups (fun j => data x !! ((o * N + j) * F + f)) (seq 0 N))
    as [Hl Hn].
  { apply Forall_forall. intros j Hj. apply elem_of_seq in Hj.
    apply lookup_lt_is_Some_2. rewrite Hlen.
    assert (o * N + j + 1 <= product pre * N) as H1 by nia.
    assert ((o * N + j + 1) * F <= product pre * N * F) as H2
      by (apply Nat.mul_le_mono_r; exact H1).
    lia. }
  rewrite Hl, length_seq. split; [reflexivity |].
  intros n Hlt. rewrite Hn, lookup_seq_lt by exact Hlt. reflexivity.
Qed.

Lemma reduce_dim_entry {out} (g : list elt -> out) (x : Tensor elt) pre N F keepdim o f :
  shape x = pre ++ [N; F] -> o < product pre -> f < F ->
  data (reduce_dim g x (length pre) keepdim) !! (o * F + f)
  = Some (g (lane x (length pre) (product [F]) o f)).
Proof.
  intros Ex Ho Hf. unfold reduce_dim. cbn [data]. rewrite Ex.
  rewrite take_app_length.
  replace (drop (S (length pre)) (pre ++ [N; F])) with [F].
  2:{ change [N; F] with ([N] ++ [F]). rewrite app_assoc.
      rewrite drop_app_length'; [reflexivity |]. rewrite length_app. simpl. lia. }
  assert (product [F] = F) as -> by (unfold product; simpl; lia).
  assert (o * F + f < product pre * F) as Hk.
  { assert ((o + 1) * F <= product pre * F) by (apply Nat.mul_le_mono_r; lia). lia. }
  rewrite list_lookup_fmap, lookup_seq_lt by exact Hk.
  cbn [fmap option_fmap option_map plus].
  rewrite (Nat.div_add_l o F f) by lia.
  rewrite (Nat.div_small f F) by exact Hf.
  rewrite Nat.add_0_r.
  replace (o * F + f) with (f + o * F) by lia.
  rewrite Nat.Div0.mod_add, (Nat.mod_small f F) by exact Hf.
  reflexivity.
Qed.

(** X13.  Without [batch], on a tensor [x] of shape [(..., N, F)] that holds
    all its entries, the entry [(o, f)] of the output of a reducer is its
    reduction of the [N] entries [x[o, 0, f], ..., x[o, N-1, f]]: their sum
    for [global_add_pool], their sum divided by [N] for [global_mean_pool],
    the largest of them for [global_max_pool] (which needs [N > 0]). *)
Theorem pool_entries (r : reducer) (x : Tensor elt) (size : option Z)
    (pre : list nat) (N F : nat) :
  shape x = pre ++ [N; F] ->
  well_formed x ->
  (r = Max_pool -> N <> 0) ->
  exists t, global_pool r x None size = Ok t
    /\ forall o f, o < product pre -> f < F ->
       exists entries,
         length entries = N
         /\ (forall n, n < N -> entries !! n = data x !! ((o * N + n) * F + f))
         /\ data t !! (o * F + f)
            = Some (match r with
                    | Add_pool => sum_list entries
                    | Mean_pool => div_count (sum_list entries) N
                    | Max_pool => (max_list entries).1
                    end).
Proof.
  intros Ex Hwf HN.
  assert (dim x = length pre + 2) as Edim.
  { unfold dim. rewrite Ex, length_app. reflexivity. }
  assert (wrap_dim (-2) (dim x) = Ok (length pre)) as Ew.
  { rewrite wrap_dim_last_but_one by lia. f_equal. lia. }
  destruct r; simpl.
  - unfold global_add_pool, Tensor_sum. rewrite Ew. simpl.
    eexists. split; [reflexivity |]. intros o f Ho Hf.
    destruct (lane_entries x pre N F o f Ex Hwf Ho Hf) as [Hl Hn].
    eexists. split; [exact Hl | split; [exact Hn |]].
    apply (reduce_dim_entry sum_list x pre N F _ o f Ex Ho Hf).
  - unfold global_mean_pool, Tensor_mean. rewrite Ew. simpl.
    eexists. split; [reflexivity |]. intros o f Ho Hf.
    destruct (lane_entries x pre N F o f Ex Hwf Ho Hf) as [Hl Hn].
    eexists. split; [exact Hl | split; [exact Hn |]].
    rewrite (reduce_dim_entry mean_list x pre N F _ o f Ex Ho Hf).
    unfold mean_list. rewrite Hl. reflexivity.
  - unfold global_max_pool, Tensor_max. rewrite Ew. simpl.
    rewrite (size_at_middle x pre N [F] Ex).
    rewrite bool_decide_eq_false_2 by (apply HN; reflexivity). simpl.
    eexists. split; [reflexivity |]. intros o f Ho Hf.
    destruct (lane_entries x pre N F o f Ex Hwf Ho Hf) as [Hl Hn].
    eexists. split; [exact Hl | split; [exact Hn |]].
    apply (reduce_dim_entry (fun l => (max_list l).1) x pre N F _ o f Ex Ho Hf).
Qed.

Lemma max_from_spec (best : elt) (best_at next : nat) (l : list elt) :
  (forall a b, leb a b = true \/ leb b a = true) ->
  (forall a b c, leb a b = true -> leb b c = true -> leb a c = true) ->
  leb best (max_from best best_at next l).1 = true
  /\ Forall (fun v => leb v (max_from best best_at next l).1 = true) l
  /\ ((max_from best best_at next l).1 = best \/ (max_from best best_at next l).1 ∈ l).
Proof.
  intros Htotal Htrans. revert best best_at next.
  induction l as [|v l IH]; intros best best_at next; simpl.
  - split; [destruct (Htotal best best); assumption | split; [constructor | left; reflexivity]].
  - destruct (leb v best) eqn:Ev.
    + destruct (IH best best_at (S next)) as (Hb & Hall & Hin).
      split; [exact Hb | split].
      * constructor; [exact (Htrans _ _ _ Ev Hb) | exact Hall].
      * destruct Hin as [E | Hin]; [left; exact E | right; right; exact Hin].
    + destruct (IH v next (S next)) as (Hv & Hall & Hin).
      assert (leb best v = true) as Hbv.
      { destruct (Htotal best v) as [E | E]; [exact E | congruence]. }
      split; [exact (Htrans _ _ _ Hbv Hv) | split].
      * constructor; [exact Hv | exact Hall].
      * right. destruct Hin as [-> | Hin]; [left | right; exact Hin].
Qed.

Lemma max_list_spec (l : list elt) :
  (forall a b, leb a b = true \/ leb b a = true) ->
  (forall a b c, leb a b = true -> leb b c = true -> leb a c = true) ->
  l <> [] ->
  (max_list l).1 ∈ l /\ Forall (fun v => leb v (max_list l).1 = true) l.
Proof.
  intros Htotal Htrans Hne. destruct l as [|v l]; [contradiction |]. simpl.
  destruct (max_from_spec v 0 1 l Htotal Htrans) as (Hv & Hall & Hin).
  split; [| constructor; assumption].
  destruct Hin as [-> | Hin]; [left | right; exact Hin].
Qed.

(** X14.  Where the order [<=] on the entries is total and transitive,
    without [batch] every entry [(o, f)] of the output of [global_max_pool]
    on a tensor of shape [(..., N, F)] with [N > 0] is one of the entries
    [x[o, n, f]] and is at least each of them. *)
Theorem max_pool_is_maximum (x : Tensor elt) (size : option Z)
    (pre : list nat) (N F : nat) :
  (forall a b, leb a b = true \/ leb b a = true) ->
  (forall a b c, leb a b = true -> leb b c = true -> leb a c = true) ->
  shape x = pre ++ [N; F] ->
  well_formed x ->
  N <> 0 ->
  exists t, global_max_pool x None size = Ok t
    /\ forall o f, o < product pre -> f < F ->
       exists m, data t !! (o * F + f) = Some m
         /\ (exists n, n < N /\ data x !! ((o * N + n) * F + f) = Some m)
         /\ (forall n v, n < N -> data x !! ((o * N + n) * F + f) = Some v ->
                         leb v m = true).
Proof.
  intros Htotal Htrans Ex Hwf HN.
  assert (dim x = length pre + 2) as Edim.
  { unfold dim. rewrite Ex, length_app. reflexivity. }
  unfold global_max_pool, Tensor_max.
  rewrite wrap_dim_last_but_one by lia.
  replace (dim x - 2) with (length pre) by lia. simpl.
  rewrite (size_at_middle x pre N [F] Ex).
  rewrite bool_decide_eq_false_2 by exact HN. simpl.
  eexists. split; [reflexivity |]. intros o f Ho Hf.
  destruct (lane_entries x pre N F o f Ex Hwf Ho Hf) as [Hl Hn].
  set (entries := lane x (length pre) (product [F]) o f) in *.
  assert (entries <> []) as Hne by (intros E; rewrite E in Hl; simpl in Hl; lia).
  destruct (max_list_spec entries Htotal Htrans Hne) as [Hin Hall].
  exists (max_list entries).1.
  split; [apply (reduce_dim_entry (fun l => (max_list l).1) x pre N F _ o f Ex Ho Hf) |].
  split.
  - apply list_elem_of_lookup in Hin as [n En].
    pose proof (lookup_lt_Some _ _ _ En) as Hlt. rewrite Hl in Hlt.
    exists n. split; [exact Hlt |]. rewrite <- (Hn n Hlt). exact En.
  - intros n v Hlt Ev. rewrite <- (Hn n Hlt) in Ev.
    rewrite Forall_forall in Hall. apply Hall.
    apply list_elem_of_lookup. eauto.
Qed.

End glob_facts.

(** ** The batches of LinkNeighborLoader *)

Section loader_lemmas.
Import Loader.

Lemma index_Ok {A} (t : list A) (i : Z) (a : A) :
  index t i = Ok a <-> in_range (length t) i /\ t !! Z.to_nat i = Some a.
Proof.
  unfold index, in_range. case_bool_decide as Hi.
  - destruct (t !! Z.to_nat i) as [a'|] eqn:Ea.
    + pose proof (lookup_lt_Some _ _ _ Ea). split.
      * intros [= <-]. split; [lia | reflexivity].
      * intros [_ [= <-]]. reflexivity.
    + split; [discriminate | intros [_ [=]]].
  - split; [discriminate | intros [? _]; lia].
Qed.

Lemma index_total {A} (t : list A) (i : Z) : in_range (length t) i -> is_Ok (index t i).
Proof.
  intros Hi. destruct (lookup_lt_is_Some_2 t (Z.to_nat i)) as [a Ea].
  { unfold in_range in Hi. lia. }
  exists a. apply index_Ok. split; assumption.
Qed.

Lemma index_all_elem {A} (t : list A) (ids : list Z) (rows : list A) :
  result_map (index t) ids = Ok rows ->
  Forall (fun a => a ∈ t) rows /\ Forall (in_range (length t)) ids
  /\ length rows = length ids.
Proof.
  rewrite result_map_Ok. intros HF.
  split; [| split; [| symmetry; exact (Forall2_length _ _ _ HF)]].
  - induction HF as [|i a ids rows Ei _ IH]; constructor; [| exact IH].
    apply index_Ok in Ei as [_ Ei]. apply list_elem_of_lookup. eauto.
  - induction HF as [|i a ids rows Ei _ IH]; constructor; [| exact IH].
    apply index_Ok in Ei as [Hi _]. exact Hi.
Qed.

(** The local numbering: the distinct ids, each once. *)
Lemma compact_elem (seen ids : list Z) (v : Z) :
  v ∈ compact seen ids <-> v ∈ seen \/ v ∈ ids.
Proof.
  revert seen. induction ids as [|u ids IH]; intros seen; simpl.
  - rewrite elem_of_nil. tauto.
  - rewrite IH, elem_of_cons. case_bool_decide as Hu.
    + split; [tauto |]. intros [?|[->|?]]; auto.
    + rewrite elem_of_app, list_elem_of_singleton. tauto.
Qed.

Lemma compact_NoDup (seen ids : list Z) : NoDup seen -> NoDup (compact seen ids).
Proof.
  revert seen. induction ids as [|u ids IH]; intros seen Hnd; simpl; [exact Hnd |].
  apply IH. case_bool_decide as Hu; [exact Hnd |].
  apply NoDup_app. split; [exact Hnd | split; [| apply NoDup_singleton]].
  intros v Hv Hv'. apply list_elem_of_singleton in Hv'. subst. contradiction.
Qed.

(** Distinct ids of [n] nodes are at most [n]. *)
Lemma distinct_ids_bound (n : nat) (nodes : list Z) :
  NoDup nodes -> Forall (in_range n) nodes -> length nodes <= n.
Proof.
  intros Hnd Hr.
  assert (nodes ⊆+ seqZ 0 (Z.of_nat n)) as Hsub.
  { apply NoDup_submseteq; [exact Hnd |]. intros v Hv.
    rewrite Forall_forall in Hr. specialize (Hr v Hv).
    apply elem_of_seqZ. unfold in_range in Hr. lia. }
  apply submseteq_length in Hsub. rewrite length_seqZ in Hsub. lia.
Qed.

Lemma local_id_Ok (nodes : list Z) (v k : Z) :
  local_id nodes v = Ok k -> in_range (length nodes) k /\ nodes !! Z.to_nat k = Some v.
Proof.
  unfold local_id.
  destruct (list_find (fun u => u = v) nodes) as [[i u]|] eqn:Ef; [| discriminate].
  intros [= <-]. apply list_find_Some in Ef as (Ei & -> & _).
  pose proof (lookup_lt_Some _ _ _ Ei). unfold in_range.
  rewrite Nat2Z.id. split; [lia | exact Ei].
Qed.

Lemma local_id_total (nodes : list Z) (v : Z) : v ∈ nodes -> is_Ok (local_id nodes v).
Proof.
  intros Hv. unfold local_id.
  destruct (list_find_elem_of (fun u => u = v) nodes v Hv eq_refl) as [[i u] ->].
  eexists; reflexivity.
Qed.

Lemma relabel_Ok (nodes : list Z) (e e' : Z * Z) :
  relabel nodes e = Ok e' ->
  in_range (length nodes) e'.1 /\ in_range (length nodes) e'.2
  /\ nodes !! Z.to_nat e'.1 = Some e.1 /\ nodes !! Z.to_nat e'.2 = Some e.2.
Proof.
  unfold relabel. intros E.
  apply bind_Ok in E as (row & Er & E). apply bind_Ok in E as (col & Ec & [= <-]).
  apply local_id_Ok in Er as [? ?]. apply local_id_Ok in Ec as [? ?]. simpl. auto.
Qed.

Lemma relabel_total (nodes : list Z) (e : Z * Z) :
  e.1 ∈ nodes -> e.2 ∈ nodes -> is_Ok (relabel nodes e).
Proof.
  intros H1 H2. unfold relabel.
  destruct (local_id_total _ _ H1) as [row ->], (local_id_total _ _ H2) as [col ->].
  eexists; reflexivity.
Qed.

Lemma relabel_all_valid (nodes : list Z) (edges edges' : list (Z * Z)) :
  result_map (relabel nodes) edges = Ok edges' ->
  valid_edges (length nodes) edges' /\ length edges' = length edges.
Proof.
  rewrite result_map_Ok. intros HF.
  split; [| symmetry; exact (Forall2_length _ _ _ HF)].
  induction HF as [|e e' edges edges' Ee _ IH]; constructor; [| exact IH].
  apply relabel_Ok in Ee. tauto.
Qed.

Lemma elem_of_endpoints (edges : list (Z * Z)) (e : Z * Z) :
  e ∈ edges -> e.1 ∈ endpoints edges /\ e.2 ∈ endpoints edges.
Proof.
  intros He. unfold endpoints. rewrite !elem_of_app.
  split; [left | right]; apply list_elem_of_fmap; eauto.
Qed.

Lemma endpoints_in_range (n : nat) (edges : list (Z * Z)) :
  valid_edges n edges -> Forall (in_range n) (endpoints edges).
Proof.
  intros Hv. unfold endpoints. apply Forall_app.
  split; apply Forall_fmap; eapply Forall_impl; try exact Hv; simpl; tauto.
Qed.

(** *** Negative samples *)

Lemma randint_length (high : Z) (count : nat) (g : rng) :
  length (randint high count g).1 = count.
Proof. unfold randint. simpl. rewrite length_fmap, length_seq. reflexivity. Qed.

Lemma randint_in_range (n count : nat) (g : rng) :
  0 < n -> Forall (in_range n) (randint (Z.of_nat n) count g).1.
Proof.
  intros Hn. unfold randint. simpl. apply Forall_fmap, Forall_forall.
  intros k _. simpl. unfold in_range. apply Z.mod_pos_bound. lia.
Qed.

Lemma num_neg_none (ratio : Q) : Qfloor (inject_Z (Z.of_nat 0) * ratio) = 0%Z.
Proof. destruct ratio as [p q]. reflexivity. Qed.

Lemma num_neg_one (n : nat) : Z.to_nat (Qfloor (inject_Z (Z.of_nat n) * 1)) = n.
Proof.
  unfold Qfloor, Qmult, inject_Z. simpl.
  rewrite Z.mul_1_r, Z.div_1_r. apply Nat2Z.id.
Qed.

Lemma valid_edges_zip (n : nat) (rows cols : list Z) :
  Forall (in_range n) rows -> Forall (in_range n) cols -> valid_edges n (zip rows cols).
Proof.
  intros Hr. revert cols. induction Hr as [|r rows Hr _ IH]; intros cols Hc; simpl.
  - constructor.
  - destruct Hc as [|c cols Hc Hcs]; constructor; [split; assumption | apply IH, Hcs].
Qed.

Lemma create_label_valid (ratio : Q) (n : nat) seeds labels (g : rng) :
  valid_edges n seeds ->
  valid_edges n (create_label ratio (Z.of_nat n) (Z.of_nat n) seeds labels g).1.1.
Proof.
  intros Hs. unfold create_label.
  case_bool_decide as Hneg; [exact Hs |].
  assert (0 < n) as Hn.
  { destruct seeds as [|e seeds].
    - exfalso. apply Hneg. change (length (@nil (Z * Z))) with 0.
      rewrite num_neg_none. reflexivity.
    - apply Forall_inv in Hs as [[? ?] _]. lia. }
  set (count := Z.to_nat _).
  pose proof (randint_in_range n count g Hn) as Hrow.
  destruct (randint (Z.of_nat n) count g) as [neg_row g1].
  pose proof (randint_in_range n count g1 Hn) as Hcol.
  destruct (randint (Z.of_nat n) count g1) as [neg_col g2]. simpl in *.
  apply Forall_app. split; [exact Hs | apply valid_edges_zip; assumption].
Qed.

(** With [neg_sampling_ratio = 1.0], a batch of [n > 0] seed edges gets [n]
    negative samples. *)
Lemma create_label_ratio_one (num_src num_dst : Z) seeds labels (g : rng) :
  seeds <> [] ->
  let n := length seeds in
  let '(label_index, label, _) := create_label 1 num_src num_dst seeds labels g in
  length label_index = 2 * n
  /\ take n label_index = seeds
  /\ label = Some (match labels with
                   | None => replicate n 1%Z
                   | Some given => Z.succ <$> given
                   end ++ replicate n 0%Z).
Proof.
  intros Hne n. unfold create_label. fold n.
  rewrite (num_neg_one n).
  rewrite bool_decide_eq_false_2 by (subst n; destruct seeds; [done | simpl; lia]).
  pose proof (randint_length num_src n g) as Hrow.
  destruct (randint num_src n g) as [neg_row g1].
  pose proof (randint_length num_dst n g1) as Hcol.
  destruct (randint num_dst n g1) as [neg_col g2]. simpl in *.
  split; [| split; [| reflexivity]].
  - rewrite length_app, length_zip. fold n. lia.
  - apply take_app_length.
Qed.

Lemma create_label_prefix (ratio : Q) (num_src num_dst : Z) seeds labels (g : rng) :
  take (length seeds) (create_label ratio num_src num_dst seeds labels g).1.1 = seeds.
Proof.
  unfold create_label. case_bool_decide; [apply firstn_all |].
  destruct (randint num_src _ g) as [neg_row g1].
  destruct (randint num_dst _ g1) as [neg_col g2]. simpl.
  apply take_app_length.
Qed.

Lemma local_id_index (nodes : list Z) (v k : Z) :
  local_id nodes v = Ok k -> index nodes k = Ok v.
Proof. intros E. apply local_id_Ok in E as [Hk Ev]. apply index_Ok. split; assumption. Qed.

Lemma relabel_stands_for (nodes : list Z) (edges edges' : list (Z * Z)) :
  result_map (relabel nodes) edges = Ok edges' ->
  Forall2 (stands_for nodes nodes) edges edges'.
Proof.
  rewrite result_map_Ok. intros HF. eapply Forall2_impl; [exact HF |].
  intros e e' E. unfold relabel in E.
  apply bind_Ok in E as (row & Er & E). apply bind_Ok in E as (col & Ec & [= <-]).
  split; apply local_id_index; assumption.
Qed.

(** *** Heterogeneous batches *)

Lemma lookup_store_elem {K A} `{EqDecision K} (key : K) (stores : list (K * A)) (a : A) :
  lookup_store key stores = Ok a -> (key, a) ∈ stores.
Proof.
  induction stores as [|[k b] stores IH]; simpl; [discriminate |].
  destruct (decide (k = key)) as [-> | Hne].
  - intros [= ->]. left.
  - intros E. right. exact (IH E).
Qed.

Lemma lookup_store_NoDup {K A} `{EqDecision K} (key : K) (stores : list (K * A)) (a : A) :
  NoDup (fst <$> stores) -> (key, a) ∈ stores -> lookup_store key stores = Ok a.
Proof.
  induction stores as [|[k b] stores IH]; simpl; intros Hnd Hin.
  - apply elem_of_nil in Hin. contradiction.
  - apply NoDup_cons in Hnd as [Hk Hnd].
    apply elem_of_cons in Hin as [[= <- <-] | Hin].
    + rewrite decide_True by reflexivity. reflexivity.
    + destruct (decide (k = key)) as [-> | Hne]; [| exact (IH Hnd Hin)].
      exfalso. apply Hk. apply list_elem_of_fmap. exists (key, a). auto.
Qed.

(** Stores that were mapped one by one under their keys are found under the
    same keys. *)
Lemma lookup_store_Forall2 {K A B} `{EqDecision K} (R : K -> A -> B -> Prop)
    (key : K) (stores : list (K * A)) (stores' : list (K * B)) (a : A) :
  Forall2 (fun p p' => p'.1 = p.1 /\ R p.1 p.2 p'.2) stores stores' ->
  lookup_store key stores = Ok a ->
  exists b, lookup_store key stores' = Ok b /\ R key a b.
Proof.
  induction 1 as [|[k a0] [k' b0] stores stores' [Hk HR] _ IH]; simpl in *;
    [discriminate |].
  subst k'. destruct (decide (k = key)) as [-> | Hne].
  - intros [= ->]. eauto.
  - exact IH.
Qed.

Lemma slice_option_Ok {A} (ids : list Z) (t t' : option (list A)) :
  slice_option ids t = Ok t' -> slices_option ids t t'.
Proof.
  unfold slice_option, slices_option. destruct t as [rows|].
  - destruct (result_map (index rows) ids) as [rows'|e] eqn:E; [| discriminate].
    intros [= <-]. apply result_map_Ok, E.
  - intros [= <-]. exact I.
Qed.

Lemma slice_option_total {A} (ids : list Z) (t : option (list A)) :
  (forall rows, t = Some rows -> Forall (in_range (length rows)) ids) ->
  is_Ok (slice_option ids t).
Proof.
  intros Hr. unfold slice_option. destruct t as [rows|]; [| eexists; reflexivity].
  destruct (result_map_total (index rows) ids) as [rows' ->].
  - eapply Forall_impl; [exact (Hr rows eq_refl) | intros i; apply index_total].
  - eexists. reflexivity.
Qed.

Lemma relabel_typed_Ok (src_nodes dst_nodes : list Z) (e e' : Z * Z) :
  relabel_typed src_nodes dst_nodes e = Ok e' ->
  stands_for src_nodes dst_nodes e e'
  /\ in_range (length src_nodes) e'.1 /\ in_range (length dst_nodes) e'.2.
Proof.
  unfold relabel_typed. intros E.
  apply bind_Ok in E as (row & Er & E). apply bind_Ok in E as (col & Ec & [= <-]).
  split; [split; apply local_id_index; assumption |].
  apply local_id_Ok in Er as [? _]. apply local_id_Ok in Ec as [? _]. auto.
Qed.

Lemma relabel_typed_total (src_nodes dst_nodes : list Z) (e : Z * Z) :
  e.1 ∈ src_nodes -> e.2 ∈ dst_nodes -> is_Ok (relabel_typed src_nodes dst_nodes e).
Proof.
  intros H1 H2. unfold relabel_typed.
  destruct (local_id_total _ _ H1) as [row ->], (local_id_total _ _ H2) as [col ->].
  eexists; reflexivity.
Qed.

Lemma relabel_typed_all (src_nodes dst_nodes : list Z) (edges edges' : list (Z * Z)) :
  result_map (relabel_typed src_nodes dst_nodes) edges = Ok edges' ->
  Forall2 (stands_for src_nodes dst_nodes) edges edges'
  /\ Forall (fun e => in_range (length src_nodes) e.1 /\ in_range (length dst_nodes) e.2)
            edges'.
Proof.
  rewrite result_map_Ok. intros HF. split.
  - eapply Forall2_impl; [exact HF |]. intros e e' E.
    apply relabel_typed_Ok in E. tauto.
  - induction HF as [|e e' edges edges' Ee _ IH]; constructor; [| exact IH].
    apply relabel_typed_Ok in Ee. tauto.
Qed.

Lemma elem_of_typed_endpoints (t : string) (et : edge_type) (edges : list (Z * Z)) (v : Z) :
  v ∈ typed_endpoints t et edges <->
  exists e, e ∈ edges /\ ((src_type et = t /\ v = e.1) \/ (dst_type et = t /\ v = e.2)).
Proof.
  unfold typed_endpoints. rewrite elem_of_app. split.
  - intros [Hv | Hv]; case_bool_decide as Ht; try (apply elem_of_nil in Hv; contradiction);
      apply list_elem_of_fmap in Hv as (e & -> & He); eauto 8.
  - intros (e & He & [[Ht ->] | [Ht ->]]); [left | right];
      rewrite bool_decide_eq_true_2 by exact Ht; apply list_elem_of_fmap; eauto.
Qed.

Lemma Forall2_Forall3 {A B C} (P : A -> B -> Prop) (Q : B -> C -> Prop)
    (l : list A) (m : list B) (k : list C) :
  Forall2 P l m -> Forall2 Q m k -> Forall3 (fun a b c => P a b /\ Q b c) l m k.
Proof.
  intros HP. revert k. induction HP as [|a b l m Hab _ IH]; intros k HQ.
  - inversion HQ. constructor.
  - inversion HQ as [|? c ? k' Hbc HQ']; subst. constructor; [auto | apply IH, HQ'].
Qed.

Lemma Forall3_fmap_m {A B B' C} (f : B -> B') (R : A -> B' -> C -> Prop)
    (l : list A) (m : list B) (k : list C) :
  Forall3 (fun a b c => R a (f b) c) l m k -> Forall3 R l (f <$> m) k.
Proof. induction 1; simpl; constructor; assumption. Qed.

Lemma elem_of_zip_Forall2 {A B B'} (P : A -> B -> Prop) (f : B -> B')
    (l : list A) (m : list B) :
  Forall2 P l m ->
  (forall b, b ∈ m -> exists a, (a, f b) ∈ zip l (f <$> m) /\ P a b)
  /\ (forall a b', (a, b') ∈ zip l (f <$> m) -> exists b, b ∈ m /\ b' = f b /\ P a b).
Proof.
  induction 1 as [|a b l m Hab _ [IH1 IH2]]; simpl.
  - split; [intros b Hb | intros a b' Hb]; apply elem_of_nil in Hb; contradiction.
  - split.
    + intros b0 Hb. apply elem_of_cons in Hb as [-> | Hb].
      * exists a. split; [left | exact Hab].
      * destruct (IH1 b0 Hb) as (a0 & Hin & HP). exists a0. split; [right |]; assumption.
    + intros a0 b' Hin. apply elem_of_cons in Hin as [[= -> ->] | Hin].
      * exists b. split; [left | auto].
      * destruct (IH2 a0 b' Hin) as (b0 & Hb & -> & HP).
        exists b0. split; [right |]; auto.
Qed.

Lemma between_zip (ns nd : nat) (rows cols : list Z) :
  Forall (in_range ns) rows -> Forall (in_range nd) cols ->
  Forall (fun e => in_range ns e.1 /\ in_range nd e.2) (zip rows cols).
Proof.
  intros Hr. revert cols. induction Hr as [|r rows Hr _ IH]; intros cols Hc; simpl.
  - constructor.
  - destruct Hc as [|c cols Hc Hcs]; constructor; [split; assumption | apply IH, Hcs].
Qed.

(** The negative samples join a node of the source type to a node of the
    destination type. *)
Lemma create_label_between (ratio : Q) (ns nd : nat) seeds labels (g : rng) :
  Forall (fun e => in_range ns e.1 /\ in_range nd e.2) seeds ->
  Forall (fun e => in_range ns e.1 /\ in_range nd e.2)
         (create_label ratio (Z.of_nat ns) (Z.of_nat nd) seeds labels g).1.1.
Proof.
  intros Hs. unfold create_label.
  case_bool_decide as Hneg; [exact Hs |].
  assert (0 < ns /\ 0 < nd) as [Hns Hnd].
  { destruct seeds as [|e seeds].
    - exfalso. apply Hneg. change (length (@nil (Z * Z))) with 0.
      rewrite num_neg_none. reflexivity.
    - apply Forall_inv in Hs as [H1 H2]. unfold in_range in *. lia. }
  set (count := Z.to_nat _).
  pose proof (randint_in_range ns count g Hns) as Hrow.
  destruct (randint (Z.of_nat ns) count g) as [neg_row g1].
  pose proof (randint_in_range nd count g1 Hnd) as Hcol.
  destruct (randint (Z.of_nat nd) count g1) as [neg_col g2]. simpl in *.
  apply Forall_app. split; [exact Hs | apply between_zip; assumption].
Qed.

End loader_lemmas.

Section loader_facts.
Context {feat attr : Type}.
Context (neighbor_sample : list (Z * Z) -> list Z -> bool -> list Z -> list Z).
Context (hetero_neighbor_sample :
           @Loader.HeteroData feat attr -> list Z -> bool -> option string ->
           list (string * list Z) -> Loader.edge_type -> list Z).
Import Loader.
#[local] Abbreviation Data := (@Loader.Data feat attr).
#[local] Abbreviation Batch := (@Loader.Batch feat attr).
#[local] Abbreviation HeteroData := (@Loader.HeteroData feat attr).
#[local] Abbreviation HeteroBatch := (@Loader.HeteroBatch feat attr).
#[local] Abbreviation NodeStore := (@Loader.NodeStore feat).
#[local] Abbreviation EdgeStore := (@Loader.EdgeStore attr).

(** *** One batch *)

(** What a batch that was built is made of. *)
Lemma make_batch_Ok (d : Data) num_neighbors directed ratio seeds labels g
    (batch : Batch) :
  make_batch neighbor_sample d num_neighbors directed ratio seeds labels g = Ok batch ->
  exists label_index g' edges,
    create_label ratio (Z.of_nat (num_nodes d)) (Z.of_nat (num_nodes d)) seeds labels g
    = (label_index, edge_label batch, g')
    /\ let edge_ids :=
         neighbor_sample (edge_index d) num_neighbors directed (endpoints label_index) in
       let nodes := compact [] (endpoints label_index ++ endpoints edges) in
       result_map (index (edge_index d)) edge_ids = Ok edges
       /\ result_map (index (x d)) nodes = Ok (x (batch_data batch))
       /\ result_map (index (edge_attr d)) edge_ids = Ok (edge_attr (batch_data batch))
       /\ result_map (relabel nodes) edges = Ok (edge_index (batch_data batch))
       /\ result_map (relabel nodes) label_index = Ok (edge_label_index batch).
Proof.
  unfold make_batch.
  destruct (create_label _ _ _ _ _ _) as [[label_index label] g'].
  intros E.
  apply bind_Ok in E as (edges & Ee & E).
  apply bind_Ok in E as (bx & Ex & E).
  apply bind_Ok in E as (ba & Ea & E).
  apply bind_Ok in E as (bei & Eei & E).
  apply bind_Ok in E as (bli & Eli & [= <-]). simpl.
  exists label_index, g', edges. auto 10.
Qed.

Lemma make_batch_total (d : Data) num_neighbors directed ratio seeds labels g :
  valid_graph d -> valid_sampler neighbor_sample d -> valid_edges (num_nodes d) seeds ->
  is_Ok (make_batch neighbor_sample d num_neighbors directed ratio seeds labels g).
Proof.
  intros [Hg Hattr] Hs Hseeds. unfold make_batch.
  pose proof (create_label_valid ratio (num_nodes d) seeds labels g Hseeds) as Hli.
  destruct (create_label _ _ _ _ _ _) as [[label_index label] g']. simpl in Hli.
  set (edge_ids := neighbor_sample _ _ _ _).
  assert (Forall (in_range (length (edge_index d))) edge_ids) as Hids by apply Hs.
  destruct (result_map_total (index (edge_index d)) edge_ids) as [edges Ee].
  { eapply Forall_impl; [exact Hids | intros i; apply index_total]. }
  rewrite Ee. simpl.
  assert (valid_edges (num_nodes d) edges) as Hedges.
  { apply index_all_elem in Ee as (Hin & _ & _).
    unfold valid_edges in *. rewrite Forall_forall in Hg. apply Forall_forall.
    intros e He. rewrite Forall_forall in Hin. apply Hg, Hin, He. }
  set (nodes := compact [] _).
  assert (forall v, v ∈ nodes <-> v ∈ endpoints label_index ++ endpoints edges) as Hnodes.
  { intros v. subst nodes. rewrite compact_elem, elem_of_nil. tauto. }
  destruct (result_map_total (index (x d)) nodes) as [bx Ex].
  { apply Forall_forall. intros v Hv. apply index_total.
    apply Hnodes, elem_of_app in Hv.
    pose proof (endpoints_in_range _ _ Hli) as H1.
    pose proof (endpoints_in_range _ _ Hedges) as H2.
    rewrite Forall_forall in H1, H2. destruct Hv; auto. }
  rewrite Ex. simpl.
  destruct (result_map_total (index (edge_attr d)) edge_ids) as [ba Ea].
  { eapply Forall_impl; [exact Hids |]. intros i Hi. apply index_total.
    rewrite Hattr. exact Hi. }
  rewrite Ea. simpl.
  destruct (result_map_total (relabel nodes) edges) as [bei Eei].
  { apply Forall_forall. intros e He. apply elem_of_endpoints in He as [H1 H2].
    apply relabel_total; apply Hnodes, elem_of_app; auto. }
  rewrite Eei. simpl.
  destruct (result_map_total (relabel nodes) label_index) as [bli Eli].
  { apply Forall_forall. intros e He. apply elem_of_endpoints in He as [H1 H2].
    apply relabel_total; apply Hnodes, elem_of_app; auto. }
  rewrite Eli. simpl. eexists; reflexivity.
Qed.

(** The batch that [make_batch] returns is the subgraph that the kernel
    sampled, in a compact local numbering. *)
Lemma make_batch_invariant (d : Data) num_neighbors directed ratio seeds labels g
    (batch : Batch) :
  make_batch neighbor_sample d num_neighbors directed ratio seeds labels g = Ok batch ->
  batch_invariant neighbor_sample d num_neighbors directed seeds batch.
Proof.
  intros E.
  pose proof (create_label_prefix ratio (Z.of_nat (num_nodes d)) (Z.of_nat (num_nodes d))
                seeds labels g) as Hprefix.
  apply make_batch_Ok in E as (label_index & g' & edges & Ec & Ee & Ex & Ea & Eei & Eli).
  rewrite Ec in Hprefix. simpl in Hprefix.
  set (nodes := compact [] _) in *.
  set (edge_ids := neighbor_sample _ _ _ _) in *.
  pose proof Ex as Hxs. apply index_all_elem in Hxs as (Hx & Hnodes & Hlen).
  pose proof Ea as Has. apply index_all_elem in Has as (Ha & _ & _).
  pose proof (relabel_all_valid _ _ _ Eei) as [Hei _].
  pose proof (relabel_all_valid _ _ _ Eli) as [Hli _].
  assert (NoDup nodes) as Hnd by apply compact_NoDup, NoDup_nil_2.
  unfold batch_invariant, num_nodes. rewrite Hlen.
  split; [exact Hei |]. split; [exact Hli |]. split; [exact Hx |]. split; [exact Ha |].
  split; [apply distinct_ids_bound; assumption |].
  exists nodes, edge_ids, edges, label_index.
  split; [exact Hnd |].
  split.
  { intros v. subst nodes. rewrite compact_elem, elem_of_nil, elem_of_app. tauto. }
  split; [apply result_map_Ok, Ex |].
  split; [reflexivity |].
  split; [apply result_map_Ok, Ee |].
  split; [apply result_map_Ok, Ea |].
  split; [apply relabel_stands_for, Eei |].
  split; [exact Hprefix | apply relabel_stands_for, Eli].
Qed.


Lemma make_hetero_batch_invariant (d : HeteroData) num_neighbors directed time_attr ratio
    seed_type seeds labels g (batch : HeteroBatch) :
  make_hetero_batch hetero_neighbor_sample d num_neighbors directed time_attr ratio
    seed_type seeds labels g = Ok batch ->
  hetero_batch_invariant hetero_neighbor_sample d num_neighbors directed time_attr
    seed_type seeds batch.
Proof.
  unfold make_hetero_batch. intros E.
  apply bind_Ok in E as (src_store & Es & E).
  apply bind_Ok in E as (dst_store & Ed & E).
  pose proof (create_label_prefix ratio (Z.of_nat (length (node_x src_store)))
                (Z.of_nat (length (node_x dst_store))) seeds labels g) as Hprefix.
  destruct (create_label _ _ _ _ _ _) as [[label_index label] g']. simpl in Hprefix.
  apply bind_Ok in E as (sampled & Esam & E).
  cbv zeta in E.
  set (nodes_of := fun t : string =>
         compact [] (typed_endpoints t seed_type label_index
                     ++ (sampled ≫= fun '(et, edges, _) => typed_endpoints t et edges))) in E.
  apply bind_Ok in E as (batch_nodes & Enodes & E).
  apply bind_Ok in E as (batch_edges & Eedges & E).
  apply bind_Ok in E as (batch_label_index & Elabel & [= <-]).
  set (seed_nodes := [(src_type seed_type, label_index.*1);
                      (dst_type seed_type, label_index.*2)]) in *.
  (* the sampled edges, edge type by edge type *)
  assert (Forall2 (fun (store : edge_type * EdgeStore)
                       (r : edge_type * list (Z * Z) * option (list attr)) =>
                     r.1.1 = store.1
                     /\ is_Ok (lookup_store (src_type store.1) (node_stores d))
                     /\ is_Ok (lookup_store (dst_type store.1) (node_stores d))
                     /\ slices (hetero_neighbor_sample d num_neighbors directed time_attr
                                  seed_nodes store.1)
                               (store_index store.2) r.1.2
                     /\ slices_option (hetero_neighbor_sample d num_neighbors directed
                                         time_attr seed_nodes store.1)
                                      (store_attr store.2) r.2)
                  (edge_stores d) sampled) as HFsam.
  { apply result_map_Ok in Esam. eapply Forall2_impl; [exact Esam |].
    intros [et store] r Er. simpl.
    apply bind_Ok in Er as (s1 & E1 & Er). apply bind_Ok in Er as (s2 & E2 & Er).
    apply bind_Ok in Er as (edges & Ee & Er). apply bind_Ok in Er as (attrs & Ea & [= <-]).
    simpl. split; [reflexivity |]. split; [eexists; exact E1 |].
    split; [eexists; exact E2 |].
    split; [apply result_map_Ok, Ee | apply slice_option_Ok, Ea]. }
  (* the node stores of the batch *)
  assert (Forall2 (fun (p p' : string * NodeStore) =>
                     p'.1 = p.1
                     /\ (fun t (s0 s' : NodeStore) =>
                           slices (nodes_of t) (node_x s0) (node_x s')
                           /\ slices_option (nodes_of t) (node_time s0) (node_time s'))
                          p.1 p.2 p'.2)
                  (node_stores d) batch_nodes) as HFnodes.
  { apply result_map_Ok in Enodes. eapply Forall2_impl; [exact Enodes |].
    intros [t store] p' Ep. simpl.
    apply bind_Ok in Ep as (rows & Er & Ep). apply bind_Ok in Ep as (times & Et & [= <-]).
    simpl. split; [reflexivity |].
    split; [apply result_map_Ok, Er | apply slice_option_Ok, Et]. }
  (* the edge stores of the batch *)
  assert (Forall2 (fun (r : edge_type * list (Z * Z) * option (list attr))
                       (store' : edge_type * EdgeStore) =>
                     store'.1 = r.1.1 /\ store_attr store'.2 = r.2
                     /\ Forall2 (stands_for (nodes_of (src_type r.1.1))
                                            (nodes_of (dst_type r.1.1)))
                                r.1.2 (store_index store'.2)
                     /\ Forall (fun e => in_range (length (nodes_of (src_type r.1.1))) e.1
                                         /\ in_range (length (nodes_of (dst_type r.1.1))) e.2)
                               (store_index store'.2))
                  sampled batch_edges) as HFedges.
  { apply result_map_Ok in Eedges. eapply Forall2_impl; [exact Eedges |].
    intros [[et edges] attrs] store' Er. simpl.
    apply bind_Ok in Er as (local & El & [= <-]). simpl.
    split; [reflexivity |]. split; [reflexivity |].
    exact (relabel_typed_all _ _ _ _ El). }
  (* a node type of the graph is one of the batch, with one row per local id *)
  assert (forall t s0, lookup_store t (node_stores d) = Ok s0 ->
            exists s', lookup_store t batch_nodes = Ok s'
                       /\ length (node_x s') = length (nodes_of t)) as Hlookup.
  { intros t s0 Et.
    destruct (lookup_store_Forall2 _ t _ _ s0 HFnodes Et) as (s' & Es' & Hx & _).
    exists s'. split; [exact Es' |]. symmetry. exact (Forall2_length _ _ _ Hx). }
  assert (forall et (edges : list (Z * Z)),
            is_Ok (lookup_store (src_type et) (node_stores d)) ->
            is_Ok (lookup_store (dst_type et) (node_stores d)) ->
            Forall (fun e => in_range (length (nodes_of (src_type et))) e.1
                             /\ in_range (length (nodes_of (dst_type et))) e.2) edges ->
            edges_between batch_nodes et edges) as Hbetween.
  { intros et edges [s1 E1] [s2 E2] Hr.
    destruct (Hlookup _ _ E1) as (s1' & E1' & Hl1).
    destruct (Hlookup _ _ E2) as (s2' & E2' & Hl2).
    exists s1', s2'. rewrite Hl1, Hl2. auto. }
  destruct (relabel_typed_all _ _ _ _ Elabel) as [Hlabel Hlabel_range].
  exists nodes_of, label_index, ((fun r => r.1.2) <$> sampled). simpl.
  split; [reflexivity |].
  split.
  { intros t v. unfold nodes_of. rewrite compact_elem, elem_of_nil, elem_of_app.
    rewrite list_elem_of_bind.
    destruct (elem_of_zip_Forall2 _ (fun r => r.1.2) _ _ HFsam) as [H1 H2].
    split.
    - intros [[] | [Hv | (r & Hv & Hr)]]; [left; exact Hv | right].
      destruct (H1 r Hr) as (store & Hin & Het & _).
      exists store, r.1.2. split; [exact Hin |].
      destruct r as [[et edges] attrs]. simpl in *. rewrite <- Het. exact Hv.
    - intros [Hv | (store & edges & Hin & Hv)]; right; [left; exact Hv | right].
      destruct (H2 store edges Hin) as (r & Hr & -> & Het & _).
      exists r. split; [| exact Hr].
      destruct r as [[et edges] attrs]. simpl in *. rewrite Het. exact Hv. }
  split.
  { eapply Forall2_impl; [exact HFnodes |].
    intros [t s0] [t' s'] (Ht & Hx & Htime). simpl in *.
    assert (NoDup (nodes_of t)) as Hnd by apply compact_NoDup, NoDup_nil_2.
    assert (Forall (fun row => row ∈ node_x s0) (node_x s')
            /\ Forall (in_range (length (node_x s0))) (nodes_of t)
            /\ length (node_x s') = length (nodes_of t)) as (Hrows & Hr & Hl).
    { apply index_all_elem, result_map_Ok, Hx. }
    split; [exact Ht |]. split; [exact Hnd |]. split; [exact Hx |].
    split; [exact Htime |]. split; [exact Hrows |].
    rewrite Hl. apply distinct_ids_bound; assumption. }
  split.
  { apply Forall3_fmap_m.
    eapply Forall3_impl; [exact (Forall2_Forall3 _ _ _ _ _ HFsam HFedges) |].
    intros store r store' [(Het & Hs & Hd & Hsl & Hat) (Het' & Hattr & Hst & Hr)].
    simpl. rewrite Het in *.
    split; [exact Het' |]. split; [split; [exact Hsl | rewrite Hattr; exact Hat] |].
    split; [exact Hst |]. apply Hbetween; assumption. }
  split; [exact Hprefix |]. split; [exact Hlabel |].
  apply Hbetween; [eexists; exact Es | eexists; exact Ed | exact Hlabel_range].
Qed.


(** A heterogeneous batch is built for a consistent graph, a kernel that
    returns ids of edges of the graph, and seed edges between nodes of
    their two node types. *)
Lemma make_hetero_batch_total (d : HeteroData) num_neighbors directed time_attr ratio
    seed_type seeds labels g :
  valid_hetero d -> valid_hetero_sampler hetero_neighbor_sample d ->
  edges_between (node_stores d) seed_type seeds ->
  is_Ok (make_hetero_batch hetero_neighbor_sample d num_neighbors directed time_attr ratio
           seed_type seeds labels g).
Proof.
  intros (Hkeys & Htimes & Hedges) Hsampler (src_store & dst_store & Es & Ed & Hseeds).
  unfold make_hetero_batch. rewrite Es, Ed. simpl.
  pose proof (create_label_between ratio _ _ seeds labels g Hseeds) as Hli.
  destruct (create_label _ _ _ _ _ _) as [[label_index label] g']. simpl in Hli.
  set (seed_nodes := [(src_type seed_type, label_index.*1);
                      (dst_type seed_type, label_index.*2)]).
  rewrite Forall_forall in Hedges.
  match goal with
  | |- is_Ok (result_map ?F (edge_stores d) ≫= _) =>
      destruct (result_map_total F (edge_stores d)) as [sampled Esam]
  end.
  { apply Forall_forall. intros [et store] Hin.
    destruct (Hedges _ Hin) as [(s1 & s2 & E1 & E2 & _) Hattr]. simpl in *.
    rewrite E1, E2. simpl.
    pose proof (Hsampler num_neighbors directed time_attr seed_nodes _ Hin) as Hids.
    simpl in Hids.
    destruct (result_map_total (index (store_index store))
                (hetero_neighbor_sample d num_neighbors directed time_attr seed_nodes et))
      as [edges Ee].
    { eapply Forall_impl; [exact Hids | intros i; apply index_total]. }
    rewrite Ee. simpl.
    destruct (slice_option_total
                (hetero_neighbor_sample d num_neighbors directed time_attr seed_nodes et)
                (store_attr store)) as [attrs Ea].
    { intros rows Er. rewrite (Hattr rows Er). exact Hids. }
    rewrite Ea. simpl. eexists; reflexivity. }
  rewrite Esam. simpl.
  (* the sampled edges are edges of the graph *)
  assert (forall et edges attrs, (et, edges, attrs) ∈ sampled ->
            exists s1 s2, lookup_store (src_type et) (node_stores d) = Ok s1
                          /\ lookup_store (dst_type et) (node_stores d) = Ok s2
                          /\ Forall (fun e => in_range (length (node_x s1)) e.1
                                              /\ in_range (length (node_x s2)) e.2) edges)
    as Hsampled.
  { apply result_map_Ok in Esam. intros et edges attrs Hin.
    apply list_elem_of_lookup in Hin as [i Hi].
    destruct (Forall2_lookup_r _ _ _ _ _ Esam Hi) as ([et0 store] & Hst & Er).
    apply list_elem_of_lookup_2 in Hst.
    destruct (Hedges _ Hst) as [(s1 & s2 & E1 & E2 & Hr) _]. simpl in *.
    apply bind_Ok in Er as (? & _ & Er). apply bind_Ok in Er as (? & _ & Er).
    apply bind_Ok in Er as (edges0 & Ee & Er).
    apply bind_Ok in Er as (attrs0 & _ & [= -> -> ->]).
    exists s1, s2. split; [exact E1 |]. split; [exact E2 |].
    apply index_all_elem in Ee as (Hel & _ & _).
    rewrite Forall_forall in Hel, Hr. apply Forall_forall. intros e He.
    apply Hr, Hel, He. }
  set (nodes_of := fun t : string =>
         compact [] (typed_endpoints t seed_type label_index
                     ++ (sampled ≫= fun '(et, edges, _) => typed_endpoints t et edges))).
  assert (forall t v, v ∈ nodes_of t <->
            v ∈ typed_endpoints t seed_type label_index
            \/ exists et edges attrs, (et, edges, attrs) ∈ sampled
                                      /\ v ∈ typed_endpoints t et edges) as Hnodes.
  { intros t v. unfold nodes_of.
    rewrite compact_elem, elem_of_nil, elem_of_app, list_elem_of_bind. split.
    - intros [[] | [Hv | ([[et edges] attrs] & Hv & Hin)]]; [left; exact Hv | right].
      exists et, edges, attrs. auto.
    - intros [Hv | (et & edges & attrs & Hin & Hv)]; right; [left; exact Hv | right].
      exists (et, edges, attrs). auto. }
  (* the nodes of a type are rows of its store *)
  assert (forall t store, lookup_store t (node_stores d) = Ok store ->
            Forall (in_range (length (node_x store))) (nodes_of t)) as Hrange.
  { intros t store Et. apply Forall_forall. intros v Hv.
    rewrite Forall_forall in Hli.
    apply Hnodes in Hv as [Hv | (et & edges & attrs & Hin & Hv)];
      apply elem_of_typed_endpoints in Hv as (e & He & Hv).
    - destruct (Hli e He) as [H1 H2].
      destruct Hv as [[Ht ->] | [Ht ->]]; rewrite Ht in *; congruence.
    - destruct (Hsampled _ _ _ Hin) as (s1 & s2 & E1 & E2 & Hr).
      rewrite Forall_forall in Hr. destruct (Hr e He) as [H1 H2].
      destruct Hv as [[Ht ->] | [Ht ->]]; rewrite Ht in *; congruence. }
  rewrite Forall_forall in Htimes.
  match goal with
  | |- is_Ok (result_map ?F (node_stores d) ≫= _) =>
      destruct (result_map_total F (node_stores d)) as [batch_nodes Enodes]
  end.
  { apply Forall_forall. intros [t store] Hin.
    pose proof (Hrange t store (lookup_store_NoDup _ _ _ Hkeys Hin)) as Hr.
    cbv beta iota.
    destruct (result_map_total (index (node_x store)) (nodes_of t)) as [rows Er].
    { eapply Forall_impl; [exact Hr | intros i; apply index_total]. }
    unfold nodes_of in Er. rewrite Er. simpl.
    destruct (slice_option_total (nodes_of t) (node_time store)) as [times Et].
    { intros times Et. rewrite (Htimes _ Hin times Et). exact Hr. }
    unfold nodes_of in Et. rewrite Et. simpl. eexists; reflexivity. }
  rewrite Enodes. simpl.
  match goal with
  | |- is_Ok (result_map ?F sampled ≫= _) =>
      destruct (result_map_total F sampled) as [batch_edges Eedges]
  end.
  { apply Forall_forall. intros [[et edges] attrs] Hin. cbv beta iota.
    destruct (result_map_total (relabel_typed (nodes_of (src_type et))
                                              (nodes_of (dst_type et))) edges)
      as [local El].
    { apply Forall_forall. intros e He.
      apply relabel_typed_total; apply Hnodes; right; exists et, edges, attrs;
        (split; [exact Hin |]); apply elem_of_typed_endpoints; exists e; auto. }
    unfold nodes_of in El. rewrite El. simpl. eexists; reflexivity. }
  rewrite Eedges. simpl.
  destruct (result_map_total (relabel_typed (nodes_of (src_type seed_type))
                                            (nodes_of (dst_type seed_type))) label_index)
    as [batch_label_index Elabel].
  { apply Forall_forall. intros e He.
    apply relabel_typed_total; apply Hnodes; left;
      apply elem_of_typed_endpoints; exists e; auto. }
  unfold nodes_of in Elabel. rewrite Elabel. simpl. eexists; reflexivity.
Qed.

(** The labels of a heterogeneous batch are those of step (1), and its
    [edge_label_index] has a column for each of them. *)
Lemma make_hetero_batch_label (d : HeteroData) num_neighbors directed time_attr ratio
    seed_type seeds labels g (batch : HeteroBatch) :
  make_hetero_batch hetero_neighbor_sample d num_neighbors directed time_attr ratio
    seed_type seeds labels g = Ok batch ->
  exists (src_store dst_store : NodeStore) (label_index : list (Z * Z)) (g' : rng),
    create_label ratio (Z.of_nat (length (node_x src_store)))
      (Z.of_nat (length (node_x dst_store))) seeds labels g
    = (label_index, hetero_label batch, g')
    /\ length (hetero_label_index batch) = length label_index.
Proof.
  unfold make_hetero_batch. intros E.
  apply bind_Ok in E as (src_store & Es & E).
  apply bind_Ok in E as (dst_store & Ed & E).
  exists src_store, dst_store.
  destruct (create_label _ _ _ _ _ _) as [[label_index label] g'].
  apply bind_Ok in E as (sampled & _ & E).
  apply bind_Ok in E as (batch_nodes & _ & E).
  apply bind_Ok in E as (batch_edges & _ & E).
  apply bind_Ok in E as (batch_label_index & Elabel & [= <-]). simpl.
  exists label_index, g'. split; [reflexivity |].
  exact (result_map_length _ _ _ Elabel).
Qed.

(** *** The claims on the batches *)

(** C1.  Every batch of [LinkNeighborLoader] is the sampled subgraph in a
    compact local numbering, with the features sliced accordingly, for a
    homogeneous graph and for a heterogeneous (possibly temporal) one.
    A batch is built whenever the graph is consistent, the kernel returns
    ids of edges of the graph and the seed edges join nodes of the graph.
    In every batch that is built: the local ids are those of a list of
    nodes without repetition, so that an id stands for one node and two
    nodes never share an id; these nodes are exactly the end points of the
    seed edges, of the negative samples and of the sampled edges; row [k]
    of [batch.x] is the row of [x] of the node with local id [k]; the
    edges of [batch.edge_index] are the sampled edges, end point by end
    point, and [batch.edge_attr] holds their attributes in the same order;
    the entries of [batch.edge_index] and of [batch.edge_label_index] are
    at least 0 and below [batch.num_nodes]; the rows of [batch.x] and
    [batch.edge_attr] are rows of the graph, and [batch.x] has at most as
    many rows as the graph has nodes.  In a heterogeneous batch the same
    holds per node type and per edge type. *)
Theorem batch_local_ids :
  (forall (d : Data) num_neighbors directed ratio seeds labels g,
     (valid_graph d -> valid_sampler neighbor_sample d ->
      valid_edges (num_nodes d) seeds ->
      is_Ok (make_batch neighbor_sample d num_neighbors directed ratio seeds labels g))
     /\ forall batch : Batch,
          make_batch neighbor_sample d num_neighbors directed ratio seeds labels g
          = Ok batch ->
          batch_invariant neighbor_sample d num_neighbors directed seeds batch)
  /\ (forall (d : HeteroData) num_neighbors directed time_attr ratio seed_type seeds
             labels g,
        (valid_hetero d -> valid_hetero_sampler hetero_neighbor_sample d ->
         edges_between (node_stores d) seed_type seeds ->
         is_Ok (make_hetero_batch hetero_neighbor_sample d num_neighbors directed
                  time_attr ratio seed_type seeds labels g))
        /\ forall batch : HeteroBatch,
             make_hetero_batch hetero_neighbor_sample d num_neighbors directed
               time_attr ratio seed_type seeds labels g = Ok batch ->
             hetero_batch_invariant hetero_neighbor_sample d num_neighbors directed
               time_attr seed_type seeds batch).
Proof.
  split.
  - intros d num_neighbors directed ratio seeds labels g. split.
    + apply make_batch_total.
    + intros batch. apply make_batch_invariant.
  - intros d num_neighbors directed time_attr ratio seed_type seeds labels g. split.
    + apply make_hetero_batch_total.
    + intros batch. apply make_hetero_batch_invariant.
Qed.

(** C3, amended.  With [neg_sampling_ratio = 1.0] and no [edge_label]
    given to the loader, a batch of [batch_size >= 1] seed edges is built
    for consistent inputs, and every such batch has an [edge_label_index]
    of exactly [2 * batch_size] columns, the first [batch_size] of which
    are the seed edges in order (in the local numbering of the batch), and
    the [edge_label] of [batch_size] entries 1 followed by [batch_size]
    entries 0.  The same holds on the edge type of the seed edges of a
    heterogeneous batch. *)
Theorem negative_sampling_ratio_one :
  (forall (d : Data) num_neighbors directed seeds g,
     seeds <> [] ->
     (valid_graph d -> valid_sampler neighbor_sample d ->
      valid_edges (num_nodes d) seeds ->
      is_Ok (make_batch neighbor_sample d num_neighbors directed 1 seeds None g))
     /\ forall batch : Batch,
          make_batch neighbor_sample d num_neighbors directed 1 seeds None g = Ok batch ->
          let batch_size := length seeds in
          length (edge_label_index batch) = 2 * batch_size
          /\ edge_label batch
             = Some (replicate batch_size 1%Z ++ replicate batch_size 0%Z)
          /\ exists nodes,
               numbering d batch nodes
               /\ Forall2 (stands_for nodes nodes) seeds
                          (take batch_size (edge_label_index batch)))
  /\ (forall (d : HeteroData) num_neighbors directed time_attr seed_type seeds g,
        seeds <> [] ->
        (valid_hetero d -> valid_hetero_sampler hetero_neighbor_sample d ->
         edges_between (node_stores d) seed_type seeds ->
         is_Ok (make_hetero_batch hetero_neighbor_sample d num_neighbors directed
                  time_attr 1 seed_type seeds None g))
        /\ forall batch : HeteroBatch,
             make_hetero_batch hetero_neighbor_sample d num_neighbors directed
               time_attr 1 seed_type seeds None g = Ok batch ->
             let batch_size := length seeds in
             label_type batch = seed_type
             /\ length (hetero_label_index batch) = 2 * batch_size
             /\ hetero_label batch
                = Some (replicate batch_size 1%Z ++ replicate batch_size 0%Z)
             /\ exists nodes_of,
                  hetero_numbering d batch nodes_of
                  /\ Forall2 (stands_for (nodes_of (src_type seed_type))
                                         (nodes_of (dst_type seed_type)))
                             seeds (take batch_size (hetero_label_index batch))).
Proof.
  split.
  - intros d num_neighbors directed seeds g Hne. split; [apply make_batch_total |].
    intros batch E batch_size.
    pose proof (create_label_ratio_one (Z.of_nat (num_nodes d)) (Z.of_nat (num_nodes d))
                  seeds None g Hne) as Hlabel.
    pose proof (make_batch_invariant _ _ _ _ _ _ _ _ E)
      as (_ & _ & _ & _ & _ & nodes & edge_ids & edges & label_index
          & Hnd & _ & Hx & _ & _ & _ & _ & Hprefix & Hli).
    apply make_batch_Ok in E as (label_index' & g' & edges' & Ec & _ & _ & _ & _ & Eli).
    rewrite Ec in Hlabel. cbv zeta in Hlabel. destruct Hlabel as (Hlen & _ & Hl).
    apply result_map_length in Eli.
    split; [rewrite Eli; exact Hlen |]. split; [exact Hl |].
    exists nodes. split; [split; assumption |].
    rewrite <- Hprefix at 1. apply Forall2_take, Hli.
  - intros d num_neighbors directed time_attr seed_type seeds g Hne.
    split; [apply make_hetero_batch_total |].
    intros batch E batch_size.
    pose proof (make_hetero_batch_invariant _ _ _ _ _ _ _ _ _ _ E)
      as (nodes_of & label_index & sampled & Htype & _ & Hnodes & _ & Hprefix & Hli & _).
    apply make_hetero_batch_label in E
      as (src_store & dst_store & label_index' & g' & Ec & Elen).
    pose proof (create_label_ratio_one (Z.of_nat (length (node_x src_store)))
                  (Z.of_nat (length (node_x dst_store))) seeds None g Hne) as Hlabel.
    rewrite Ec in Hlabel. cbv zeta in Hlabel. destruct Hlabel as (Hlen & _ & Hl).
    split; [exact Htype |]. split; [rewrite Elen; exact Hlen |]. split; [exact Hl |].
    exists nodes_of. split.
    + eapply Forall2_impl; [exact Hnodes |]. intros store store' (Ht & Hnd & Hx & _).
      split; [exact Ht |]. split; [exact Hnd | exact Hx].
    + rewrite <- Hprefix at 1. apply Forall2_take, Hli.
Qed.

End loader_facts.

(** ** The assertions of the tests *)

Section test_facts.
Import Test.

Lemma elem_of_with_label (edge_label_index : list (Z * Z)) (edge_label : list Z)
    (v : Z) (e : Z * Z) :
  e ∈ with_label edge_label_index edge_label v <->
  exists k, edge_label_index !! k = Some e /\ edge_label !! k = Some v.
Proof.
  unfold with_label. rewrite list_elem_of_omap. split.
  - intros ([e' l] & Hin & E). case_bool_decide as Hl; [| discriminate].
    injection E as ->. subst l.
    apply list_elem_of_lookup in Hin as [k Hk].
    apply lookup_zip_with_Some in Hk as (a & b0 & [= <- <-] & Ha & Hb). eauto.
  - intros (k & Ha & Hb). exists (e, v). split.
    + apply list_elem_of_lookup. exists k.
      apply lookup_zip_with_Some. eauto.
    + rewrite bool_decide_eq_true_2 by reflexivity. reflexivity.
Qed.

(** X15.  What the two assertions of the homogeneous test check: the
    comparison [len(edge_index | edge_label_index) == len(edge_index)] holds
    exactly when every column of [edge_label_index] with the label 1 is a
    column of [edge_index], and [len(edge_index & edge_label_index) == 0]
    exactly when no column with the label 0 is one. *)
Theorem assertions_of_the_test (edge_index edge_label_index : list (Z * Z))
    (edge_label : list Z) :
  (positives_present edge_index edge_label_index edge_label = true <->
   forall k e, edge_label_index !! k = Some e -> edge_label !! k = Some 1%Z ->
               e ∈ edge_index)
  /\ (negatives_absent edge_index edge_label_index edge_label = true <->
      forall k e, edge_label_index !! k = Some e -> edge_label !! k = Some 0%Z ->
                  e ∉ edge_index).
Proof.
  unfold positives_present, negatives_absent, unique_edge_pairs.
  rewrite !bool_decide_eq_true.
  assert (forall (l : list (Z * Z)) e, e ∈ (list_to_set l : gset (Z * Z)) <-> e ∈ l)
    as Hset by (intros l e; apply elem_of_list_to_set).
  split.
  - set (A := list_to_set edge_index : gset (Z * Z)).
    set (B := list_to_set (with_label edge_label_index edge_label 1) : gset (Z * Z)).
    assert (size (A ∪ B) = size A <-> B ⊆ A) as ->.
    { split.
      - intros Hsize. assert (A ≡ A ∪ B) as HAB.
        { apply set_subseteq_size_equiv; [apply union_subseteq_l | lia]. }
        intros e He. apply HAB, elem_of_union. right. exact He.
      - intros Hsub. rewrite (union_comm_L A B), (subseteq_union_1_L B A Hsub).
        reflexivity. }
    subst A B. split.
    + intros Hsub k e Hk Hl. apply Hset, Hsub, Hset, elem_of_with_label. eauto.
    + intros Hall e He. apply Hset.
      apply Hset, elem_of_with_label in He as (k & Hk & Hl). eauto.
  - rewrite size_empty_iff. split.
    + intros Hempty k e Hk Hl Hin.
      apply (not_elem_of_empty (C := gset (Z * Z)) e). rewrite <- Hempty.
      apply elem_of_intersection. split; apply Hset; [exact Hin |].
      apply elem_of_with_label. eauto.
    + intros Hall. apply elem_of_equiv_empty. intros e He.
      apply elem_of_intersection in He as [Hin He].
      apply Hset in Hin.
      apply Hset, elem_of_with_label in He as (k & Hk & Hl).
      exact (Hall k e Hk Hl Hin).
Qed.

End test_facts.

(** ** Examples *)

Section examples.
Import Example.

(** *** multi.py *)

(** One aggregator under the mode ['attn']: the sum, and no call of
    [combine]. *)
Lemma forward_single_aggregator_witness :
  Multi.run (Multi.forward (one_sum (Some "attn")) [1; 2; 3]%Z None None None (-2))
  = (Ok [6%Z], [Multi.Call_aggr "sum"]).
Proof.
  exact (proj1 (proj1 (forward_single_aggregator (one_sum (Some "attn")) [1; 2; 3]%Z
                         None None None (-2)) "sum" eq_refl)).
Defined.

(** A single aggregator with the mode ['proj'] is rejected. *)
Lemma init_ValueError_exactly_witness :
  is_ValueError (Multi.__init__ small_resolver (Multi.AggrsList [Multi.ByName "sum"])
                   None (Some "proj") None)
  <-> Multi.init_rejects (Multi.AggrsList [Multi.ByName "sum"]) None (Some "proj") None.
Proof.
  apply (init_ValueError_exactly small_resolver (Multi.AggrsList [Multi.ByName "sum"])
           None (Some "proj") None).
  - intros q k Hq. apply list_elem_of_singleton in Hq. subst q.
    exists "sum". reflexivity.
  - intros a b k [msg E]. discriminate E.
  - intros a b k [msg E]. discriminate E.
Defined.

(** Two names under the mode ['cat'] give an instance with two aggregators. *)
Lemma init_Ok_aggrs_witness :
  length (Multi.aggrs {| Multi.aggrs := ["sum"; "max"]; Multi.mode := Some "cat";
                         Multi.lin := None; Multi.lin_heads := None;
                         Multi.multihead_attn := None; Multi.dense_combine := None |})
  = 2
  /\ Forall2 (fun q a => exists k, small_resolver q k = Ok a)
       [Multi.ByName "sum"; Multi.ByName "max"] ["sum"; "max"]
  /\ Some "cat" = Some "cat".
Proof.
  apply (init_Ok_aggrs small_resolver
           (Multi.AggrsList [Multi.ByName "sum"; Multi.ByName "max"]) None (Some "cat") None).
  reflexivity.
Defined.

(** A mode that [combine] does not know passes [__init__]; [combine]
    raises. *)
Lemma combine_unsupported_mode_witness :
  Multi.run (Multi.combine
               {| Multi.aggrs := ["sum"; "max"]; Multi.mode := Some "foo";
                  Multi.lin := None; Multi.lin_heads := None;
                  Multi.multihead_attn := None; Multi.dense_combine := None |}
               [[6]; [3]]%Z)
  = (Raise (ValueError "Combine mode 'foo' is not supported."),
     [Multi.Call_combine [[6]; [3]]%Z]).
Proof.
  apply (combine_unsupported_mode small_resolver
           (Multi.AggrsList [Multi.ByName "sum"; Multi.ByName "max"])
           None (Some "foo") None).
  - reflexivity.
  - intros name E. injection E as <-.
    apply (bool_decide_unpack _). reflexivity.
Defined.

(** *** glob.py *)

Lemma pool_without_batch_witness :
  exists t, Glob.global_pool Glob.Add_pool matrix None None = Ok t
    /\ Glob.shape t = [1; 2] /\ Glob.well_formed t.
Proof.
  apply (proj1 (pool_without_batch Glob.Add_pool matrix None) 3 2 eq_refl).
  discriminate.
Defined.

Example add_pool_matrix :
  Glob.global_add_pool matrix None None = Ok (Glob.mkTensor [1; 2] [9; 12]%Z).
Proof. reflexivity. Qed.

Example max_pool_cube :
  Glob.global_max_pool cube None None = Ok (Glob.mkTensor [2; 2] [5; 6; 11; 12]%Z).
Proof. reflexivity. Qed.

(** C10 as it was stated fails on a vector: the number of dimensions is
    not 2, and none of the three reducers returns a tensor. *)
Lemma pool_of_vector_raises :
  Glob.dim vector = 1
  /\ Glob.global_add_pool vector None None = Raise (IndexError "Dimension out of range")
  /\ Glob.global_mean_pool vector None None = Raise (IndexError "Dimension out of range")
  /\ Glob.global_max_pool vector None None = Raise (IndexError "Dimension out of range").
Proof. repeat split. Qed.

(** *** The loader *)

Lemma one_hop_in_range (edges : list (Z * Z)) num_neighbors directed seed_nodes :
  Forall (Loader.in_range (length edges)) (one_hop edges num_neighbors directed seed_nodes).
Proof.
  unfold one_hop. apply Forall_forall. intros i Hi.
  apply list_elem_of_omap in Hi as ([k e] & Hke & Ei).
  case_bool_decide; [| discriminate]. injection Ei as <-.
  apply elem_of_zip_l, elem_of_seq in Hke. unfold Loader.in_range. lia.
Qed.

Lemma one_hop_valid (d : Loader.Data (feat := Z) (attr := Z)) :
  Loader.valid_sampler one_hop d.
Proof. intros num_neighbors directed seed_nodes. apply one_hop_in_range. Qed.

Lemma path_valid : Loader.valid_graph path.
Proof.
  split; [| reflexivity].
  repeat constructor; unfold Loader.in_range; simpl; lia.
Qed.

Lemma hetero_one_hop_valid (d : Loader.HeteroData (feat := Z) (attr := Z)) :
  NoDup (fst <$> Loader.edge_stores d) -> Loader.valid_hetero_sampler hetero_one_hop d.
Proof.
  intros Hnd num_neighbors directed time_attr seed_nodes [et store] Hin.
  unfold hetero_one_hop. simpl.
  rewrite (lookup_store_NoDup et (Loader.edge_stores d) store Hnd Hin).
  apply one_hop_in_range.
Qed.

Lemma library_valid : Loader.valid_hetero library.
Proof.
  split; [apply (bool_decide_unpack _); vm_compute; exact I |].
  split.
  - repeat constructor; simpl; intros times [= <-]; reflexivity.
  - repeat constructor; simpl;
      try (intros rows E; first [discriminate E | injection E as <-; reflexivity]);
      eexists _, _; (split; [reflexivity |]); (split; [reflexivity |]);
      repeat constructor; unfold Loader.in_range; simpl; lia.
Qed.

Lemma library_sampler_valid : Loader.valid_hetero_sampler hetero_one_hop library.
Proof.
  apply hetero_one_hop_valid. apply (bool_decide_unpack _). vm_compute. exact I.
Qed.

Lemma library_seed_valid :
  Loader.edges_between (Loader.node_stores library) ("paper", "to", "author") [(1, 2)]%Z.
Proof.
  eexists _, _. split; [reflexivity |]. split; [reflexivity |].
  repeat constructor; unfold Loader.in_range; simpl; lia.
Qed.

(** A batch of one seed edge and one negative sample, on the path and on
    the edge type [('paper', 'to', 'author')] of the library. *)
Lemma batch_local_ids_witness :
  (exists batch,
     Loader.make_batch one_hop path [-1]%Z true 1 [(1, 2)]%Z None counter = Ok batch
     /\ Loader.batch_invariant one_hop path [-1]%Z true [(1, 2)]%Z batch)
  /\ (exists batch,
        Loader.make_hetero_batch hetero_one_hop library [-1]%Z true (Some "time") 1
          ("paper", "to", "author") [(1, 2)]%Z None counter = Ok batch
        /\ Loader.hetero_batch_invariant hetero_one_hop library [-1]%Z true (Some "time")
             ("paper", "to", "author") [(1, 2)]%Z batch).
Proof.
  destruct (batch_local_ids one_hop hetero_one_hop) as [Hdata Hhetero]. split.
  - destruct (Hdata path [-1]%Z true 1%Q [(1, 2)]%Z None counter) as [Htotal Hbatch].
    destruct Htotal as [batch E].
    + exact path_valid.
    + exact (one_hop_valid path).
    + repeat constructor; unfold Loader.in_range; simpl; lia.
    + exists batch. split; [exact E | exact (Hbatch batch E)].
  - destruct (Hhetero library [-1]%Z true (Some "time") 1%Q ("paper", "to", "author")
                [(1, 2)]%Z None counter) as [Htotal Hbatch].
    destruct Htotal as [batch E].
    + exact library_valid.
    + exact library_sampler_valid.
    + exact library_seed_valid.
    + exists batch. split; [exact E | exact (Hbatch batch E)].
Defined.

(** Batches of two seed edges without labels, on the path and on the
    library: four columns, the first two the seed edges, and the labels
    [1; 1; 0; 0]. *)
Lemma negative_sampling_ratio_one_witness :
  (exists batch,
     Loader.make_batch one_hop path [-1]%Z true 1 [(0, 1); (1, 2)]%Z None counter
     = Ok batch
     /\ length (Loader.edge_label_index batch) = 4
     /\ Loader.edge_label batch = Some [1; 1; 0; 0]%Z
     /\ exists nodes,
          Loader.numbering path batch nodes
          /\ Forall2 (Loader.stands_for nodes nodes) [(0, 1); (1, 2)]%Z
               (take 2 (Loader.edge_label_index batch)))
  /\ (exists batch,
        Loader.make_hetero_batch hetero_one_hop library [-1]%Z true None 1
          ("paper", "to", "author") [(0, 0); (1, 2)]%Z None counter = Ok batch
        /\ Loader.label_type batch = ("paper", "to", "author")
        /\ length (Loader.hetero_label_index batch) = 4
        /\ Loader.hetero_label batch = Some [1; 1; 0; 0]%Z
        /\ exists nodes_of,
             Loader.hetero_numbering library batch nodes_of
             /\ Forall2 (Loader.stands_for (nodes_of "paper") (nodes_of "author"))
                  [(0, 0); (1, 2)]%Z (take 2 (Loader.hetero_label_index batch))).
Proof.
  destruct (negative_sampling_ratio_one one_hop hetero_one_hop) as [Hdata Hhetero]. split.
  - destruct (Hdata path [-1]%Z true [(0, 1); (1, 2)]%Z counter) as [Htotal Hbatch];
      [discriminate |].
    destruct Htotal as [batch E].
    + exact path_valid.
    + exact (one_hop_valid path).
    + repeat constructor; unfold Loader.in_range; simpl; lia.
    + exists batch. split; [exact E | exact (Hbatch batch E)].
  - destruct (Hhetero library [-1]%Z true None ("paper", "to", "author")
                [(0, 0); (1, 2)]%Z counter) as [Htotal Hbatch]; [discriminate |].
    destruct Htotal as [batch E].
    + exact library_valid.
    + exact library_sampler_valid.
    + eexists _, _. split; [reflexivity |]. split; [reflexivity |].
      repeat constructor; unfold Loader.in_range; simpl; lia.
    + exists batch. split; [exact E | exact (Hbatch batch E)].
Defined.

Example batch_of_one_seed :
  Loader.make_batch one_hop path [-1]%Z true 1 [(1, 2)]%Z None counter
  = Ok {| Loader.batch_data :=
            {| Loader.x := [11; 10; 12]%Z;
               Loader.edge_index := [(1, 0); (0, 2)]%Z;
               Loader.edge_attr := [100; 101]%Z |};
          Loader.edge_label_index := [(0, 2); (1, 0)]%Z;
          Loader.edge_label := Some [1; 0]%Z |}.
Proof. reflexivity. Qed.

Example hetero_batch_of_one_seed :
  Loader.make_hetero_batch hetero_one_hop library [-1]%Z true (Some "time") 1
    ("paper", "to", "author") [(1, 2)]%Z None counter
  = Ok {| Loader.hetero_data :=
            {| Loader.node_stores :=
                 [("paper", {| Loader.node_x := [1; 0]%Z; Loader.node_time := None |});
                  ("author", {| Loader.node_x := [102; 101; 100]%Z;
                                Loader.node_time := Some [7; 6; 5]%Z |})];
               Loader.edge_stores :=
                 [(("paper", "to", "paper"),
                   {| Loader.store_index := [(1, 0)]%Z;
                      Loader.store_attr := Some [200]%Z |});
                  (("paper", "to", "author"),
                   {| Loader.store_index := [(0, 0)]%Z;
                      Loader.store_attr := Some [301]%Z |});
                  (("author", "to", "paper"),
                   {| Loader.store_index := [(2, 0)]%Z;
                      Loader.store_attr := None |})] |};
          Loader.label_type := ("paper", "to", "author");
          Loader.hetero_label_index := [(0, 0); (1, 1)]%Z;
          Loader.hetero_label := Some [1; 0]%Z |}.
Proof. vm_compute. reflexivity. Qed.

(** C3 as it was stated fails when the loader is given labels: two seed
    edges with the labels [1; 1] get the labels [2; 2], as
    [test_link_neighbor_loader_edge_label] expects. *)
Lemma given_labels_are_shifted :
  exists batch,
    Loader.make_batch one_hop path [-1]%Z true 1 [(0, 1); (1, 2)]%Z (Some [1; 1]%Z) counter
    = Ok batch
    /\ length (Loader.edge_label_index batch) = 4
    /\ Loader.edge_label batch = Some [2; 2; 0; 0]%Z.
Proof. eexists. split; [reflexivity | split; reflexivity]. Qed.

(** *** More of multi.py *)

Lemma init_cat :
  Multi.__init__ small_resolver sum_max_names None (Some "cat") None
  = Ok (sum_max "cat" None None None).
Proof. vm_compute. reflexivity. Qed.

Lemma init_proj :
  Multi.__init__ small_resolver sum_max_names None (Some "proj") (Some channels)
  = Ok (sum_max "proj" (Some tt) None None).
Proof. vm_compute. reflexivity. Qed.

Lemma init_attn :
  Multi.__init__ small_resolver sum_max_names None (Some "attn") (Some channels)
  = Ok (sum_max "attn" None (Some [tt; tt]) (Some tt)).
Proof. vm_compute. reflexivity. Qed.

Lemma init_attributes_witness :
  2 <= length (Multi.aggrs (sum_max "proj" (Some tt) None None))
  /\ is_Some (Multi.lin (sum_max "proj" (Some tt) None None)).
Proof.
  destruct (init_attributes small_resolver sum_max_names None (Some "proj")
              (Some channels) _ init_proj) as (_ & H2 & Hlin & _).
  split; [apply H2; left; reflexivity | apply Hlin; reflexivity].
Defined.

Lemma forward_first_error_witness :
  Multi.run (Multi.forward sum_bogus_max [1; 2; 3]%Z None None None (-2))
  = (Raise (ValueError "unknown aggregation"),
     [Multi.Call_aggr "sum"; Multi.Call_aggr "bogus"]).
Proof.
  apply (forward_first_error sum_bogus_max [1; 2; 3]%Z None None None (-2)
           ["sum"] ["max"] "bogus" (ValueError "unknown aggregation")).
  - reflexivity.
  - repeat constructor. exists [6%Z]. reflexivity.
  - reflexivity.
Defined.

Lemma forward_all_return_witness :
  Multi.run (Multi.forward (sum_max "cat" None None None) [1; 2; 3]%Z None None None (-2))
  = (Ok [6; 3]%Z,
     [Multi.Call_aggr "sum"; Multi.Call_aggr "max"; Multi.Call_combine [[6]; [3]]%Z]).
Proof.
  apply (forward_all_return (sum_max "cat" None None None) [1; 2; 3]%Z None None None (-2)
           [[6]; [3]]%Z).
  - repeat constructor.
  - simpl. lia.
Defined.

Lemma combine_of_built_witness :
  exists l, Multi.lin (sum_max "proj" (Some tt) None None) = Some l
    /\ Multi.run (Multi.combine (sum_max "proj" (Some tt) None None) [[6]; [3]]%Z)
       = (out ← Multi.torch_cat [[6]; [3]]%Z (-2 + 1); Multi.Linear_call l out,
          [Multi.Call_combine [[6]; [3]]%Z]).
Proof.
  exact (proj1 (proj2 (combine_of_built small_resolver sum_max_names None (Some "proj")
                         (Some channels) _ [[6]; [3]]%Z init_proj)) eq_refl).
Defined.

Lemma attn_heads_witness :
  exists heads, Multi.lin_heads (sum_max "attn" None (Some [tt; tt]) (Some tt)) = Some heads
    /\ length heads = 2.
Proof.
  destruct (attn_heads small_resolver sum_max_names None (Some channels) _ init_attn)
    as (heads & E & _ & Hint & _).
  exists heads. split; [exact E |]. apply Hint. reflexivity.
Defined.

Lemma forward_cat_witness :
  Multi.run (Multi.forward (sum_max "cat" None None None) [1; 2; 3]%Z None None None (-2))
  = (Ok [6; 3]%Z,
     [Multi.Call_aggr "sum"; Multi.Call_aggr "max"; Multi.Call_combine [[6]; [3]]%Z]).
Proof.
  apply (forward_cat small_resolver sum_max_names None None _ [1; 2; 3]%Z None None None
           (-2) [[6]; [3]]%Z init_cat).
  - simpl. lia.
  - repeat constructor.
Defined.

Lemma reset_of_built_witness :
  exists heads attn,
    Multi.lin_heads (sum_max "attn" None (Some [tt; tt]) (Some tt)) = Some heads
    /\ Multi.multihead_attn (sum_max "attn" None (Some [tt; tt]) (Some tt)) = Some attn
    /\ Multi.reset_parameters (sum_max "attn" None (Some [tt; tt]) (Some tt))
       = [Multi.Reset_aggr "sum"; Multi.Reset_aggr "max"]
         ++ (Multi.Reset_lin <$> heads) ++ [Multi.Reset_attn attn].
Proof.
  exact (proj2 (proj2 (reset_of_built small_resolver sum_max_names None (Some "attn")
                         (Some channels) _ init_attn)) eq_refl).
Defined.

(** The second of two calls with one dictionary. *)
Lemma init_shared_proj :
  Multi.init_shared small_resolver sum_max_names None (Some "proj") channels
  = (Ok (sum_max "proj" (Some tt) None None), ∅).
Proof. vm_compute. reflexivity. Qed.

Lemma init_pops_mode_kwargs_witness :
  Multi.__init__ small_resolver sum_max_names None (Some "proj") (Some ∅)
  = Raise (ValueError
             "Combine mode 'proj' must have `in_channels` and `out_channels` specified.").
Proof.
  destruct (init_pops_mode_kwargs small_resolver sum_max_names None (Some "proj") channels)
    as (_ & _ & Hpops).
  destruct (Hpops "proj" _ _ eq_refl (or_introl eq_refl) init_shared_proj)
    as (_ & _ & _ & _ & E).
  exact E.
Defined.

(** *** More of glob.py *)

Lemma pool_entries_witness :
  exists t, Glob.global_pool Glob.Add_pool matrix None None = Ok t
    /\ forall o f, o < 1 -> f < 2 ->
       exists entries,
         length entries = 3
         /\ (forall n, n < 3 -> entries !! n = Glob.data matrix !! ((o * 3 + n) * 2 + f))
         /\ Glob.data t !! (o * 2 + f) = Some (Glob.sum_list entries).
Proof.
  apply (pool_entries Glob.Add_pool matrix None [] 3 2).
  - reflexivity.
  - reflexivity.
  - discriminate.
Defined.

Lemma Z_leb_total (a b : Z) : Z.leb a b = true \/ Z.leb b a = true.
Proof. rewrite !Z.leb_le. lia. Qed.

Lemma Z_leb_trans (a b c : Z) : Z.leb a b = true -> Z.leb b c = true -> Z.leb a c = true.
Proof. rewrite !Z.leb_le. lia. Qed.

Lemma max_pool_is_maximum_witness :
  exists t, Glob.global_max_pool cube None None = Ok t
    /\ forall o f, o < 2 -> f < 2 ->
       exists m, Glob.data t !! (o * 2 + f) = Some m
         /\ (exists n, n < 3 /\ Glob.data cube !! ((o * 3 + n) * 2 + f) = Some m)
         /\ (forall n v, n < 3 -> Glob.data cube !! ((o * 3 + n) * 2 + f) = Some v ->
                         Z.leb v m = true).
Proof.
  exact (max_pool_is_maximum cube None [2] 3 2 Z_leb_total Z_leb_trans
           eq_refl eq_refl ltac:(discriminate)).
Defined.

(** *** The assertions of the tests *)

Example assertions_on_a_batch :
  Test.positives_present [(0, 1); (1, 2)]%Z [(0, 1); (0, 2)]%Z [1; 0]%Z = true
  /\ Test.negatives_absent [(0, 1); (1, 2)]%Z [(0, 1); (0, 2)]%Z [1; 0]%Z = true
  /\ Test.positives_present [(0, 1); (1, 2)]%Z [(0, 2)]%Z [1]%Z = false.
Proof. repeat split; vm_compute; reflexivity. Qed.

End examples.
